(** * Conversation vector database: chunking, storage, retrieval, import

    A shallow embedding of the [claude-conversation-vectordb] tool:
    - [vector_store.py]: [ConversationVectorStore] ([chunk_conversation],
      [add_conversations], [search], [get_stats], [reset]);
    - [conversation_downloader.py]: [ConversationImporter]
      ([import_from_json_export], [import_from_directory],
      [_normalize_conversations]);
    - [cli.py]: the relevance score printed by [cmd_search].

    Python exceptions are explicit: a function that can raise returns a
    [result].  Python integers are [Z]; strings are [string].

    The collaborators outside the repository are parameters or models:
    the embedding model, the distance and the JSON codec are type
    classes; the persistent vector store is a finite map from ids to
    records, one map per collection name; the clock is an oracle. *)

From Stdlib Require Import ZArith QArith Lia String Ascii List Sorted.
From stdpp Require Import gmap strings list fin_maps pretty.

(** ** Python prelude *)

Module Py.

(** The exception classes the modelled code can raise. *)
Inductive exn : Type :=
  | ValueError | TypeError | AttributeError | IndexError
  | KeyError | JSONDecodeError | OSError.

Inductive result (A : Type) : Type :=
  | Ok (a : A)
  | Raise (e : exn).
Arguments Ok {A} a.
Arguments Raise {A} e.

Definition bind {A B} (m : result A) (k : A -> result B) : result B :=
  match m with
  | Ok a => k a
  | Raise e => Raise e
  end.

(** [len(range(start, stop, step))] for a non-zero [step]. *)
Definition range_len (start stop step : Z) : Z :=
  if (0 <? step)%Z then
    if (start <? stop)%Z then (1 + (stop - 1 - start) / step)%Z else 0%Z
  else
    if (stop <? start)%Z then (1 + (start - 1 - stop) / (- step))%Z else 0%Z.

(** [range(start, stop, step)]: a zero step raises [ValueError]. *)
Definition range (start stop step : Z) : result (list Z) :=
  if (step =? 0)%Z then Raise ValueError
  else Ok (map (fun k : nat => (start + Z.of_nat k * step)%Z)
               (seq 0 (Z.to_nat (range_len start stop step)))).

(** A slice bound: negative bounds count from the end, and every bound is
    clamped to [0 .. n]. *)
Definition slice_bound (n i : Z) : Z :=
  if (i <? 0)%Z then Z.max (i + n) 0 else Z.min i n.

(** [l[lo:hi]]. *)
Definition slice {A} (l : list A) (lo hi : Z) : list A :=
  let n := Z.of_nat (length l) in
  let a := slice_bound n lo in
  let b := slice_bound n hi in
  take (Z.to_nat (b - a)) (drop (Z.to_nat a) l).

Definition is_lower (c : ascii) : bool :=
  (97 <=? nat_of_ascii c)%nat && (nat_of_ascii c <=? 122)%nat.
Definition is_upper (c : ascii) : bool :=
  (65 <=? nat_of_ascii c)%nat && (nat_of_ascii c <=? 90)%nat.
Definition to_upper (c : ascii) : ascii :=
  if is_lower c then ascii_of_nat (nat_of_ascii c - 32) else c.
Definition to_lower (c : ascii) : ascii :=
  if is_upper c then ascii_of_nat (nat_of_ascii c + 32) else c.

(** [s.lower()], on ASCII letters; other bytes are kept. *)
Fixpoint lower (s : string) : string :=
  match s with
  | EmptyString => EmptyString
  | String c s' => String (to_lower c) (lower s')
  end.

(** [s.capitalize()]: the first character upper-cased, the rest
    lower-cased.  Case mapping is that of ASCII letters; other bytes are
    kept. *)
Definition capitalize (s : string) : string :=
  match s with
  | EmptyString => EmptyString
  | String c s' => String (to_upper c) (lower s')
  end.

(** [sep.join(parts)]. *)
Fixpoint join (sep : string) (parts : list string) : string :=
  match parts with
  | [] => EmptyString
  | [p] => p
  | p :: ps => p +:+ sep +:+ join sep ps
  end.

Definition newline : string := String (ascii_of_nat 10) EmptyString.

Definition is_digit (c : ascii) : bool :=
  (48 <=? nat_of_ascii c)%nat && (nat_of_ascii c <=? 57)%nat.

Fixpoint all_digits (s : string) : bool :=
  match s with
  | EmptyString => true
  | String c s' => is_digit c && all_digits s'
  end.

(** [str(n)] for an integer. *)
Definition str_int (n : Z) : string := pretty n.

End Py.

Import Py.

#[global] Instance result_ret : MRet result := @Ok.
#[global] Instance result_bind : MBind result :=
  fun A B k m => Py.bind m k.

(** ** vector_store.py: data *)

(** A message of a normalized conversation:
    [{'role': ..., 'content': ..., 'timestamp': ...}]. *)
Record Message : Type := mkMessage {
  role : string;
  content : string;
  timestamp : string
}.

(** A normalized conversation:
    [{'id': ..., 'created_at': ..., 'title': ..., 'messages': [...]}]. *)
Record Conversation : Type := mkConversation {
  conv_id : string;
  conv_created_at : string;
  conv_title : string;
  conv_messages : list Message
}.

(** The chunk dictionary built by [chunk_conversation]. *)
Record Chunk : Type := mkChunk {
  text : string;
  conversation_id : string;
  conversation_title : string;
  created_at : string;
  chunk_index : Z;
  message_start_idx : Z;
  message_end_idx : Z;
  messages : list Message
}.

(** ** vector_store.py: chunk_conversation *)

(** The text of a chunk: ["{Role}: {content}"] for each message, joined by
    a blank line. *)
Definition chunk_text (chunk_messages : list Message) : string :=
  Py.join (Py.newline +:+ Py.newline)
    (map (fun msg => Py.capitalize (role msg) +:+ ": " +:+ content msg)
         chunk_messages).

(** The chunk appended in one iteration of the loop, at window start [i],
    when [chunks] have been produced so far. *)
Definition make_chunk (conversation : Conversation) (chunks : list Chunk)
    (i : Z) (chunk_messages : list Message) : Chunk :=
  {| text := chunk_text chunk_messages;
     conversation_id := conv_id conversation;
     conversation_title := conv_title conversation;
     created_at := conv_created_at conversation;
     chunk_index := Z.of_nat (length chunks);
     message_start_idx := i;
     message_end_idx := (i + Z.of_nat (length chunk_messages))%Z;
     messages := chunk_messages |}.

(** The body of [for i in range(...)], over the remaining indices, with
    its [continue] (empty window) and its [break] (window reaches the
    end). *)
Fixpoint chunk_loop (conversation : Conversation) (chunk_size : Z)
    (indices : list Z) (chunks : list Chunk) : list Chunk :=
  match indices with
  | [] => chunks
  | i :: rest =>
      let msgs := conv_messages conversation in
      let chunk_messages := Py.slice msgs i (i + chunk_size) in
      match chunk_messages with
      | [] => chunk_loop conversation chunk_size rest chunks
      | _ :: _ =>
          let chunks' := chunks ++ [make_chunk conversation chunks i chunk_messages] in
          if (Z.of_nat (length msgs) <=? i + chunk_size)%Z then chunks'
          else chunk_loop conversation chunk_size rest chunks'
      end
  end.

Definition chunk_conversation (conversation : Conversation)
    (chunk_size overlap : Z) : result (list Chunk) :=
  indices ← Py.range 0 (Z.of_nat (length (conv_messages conversation)))
                     (chunk_size - overlap);
  Ok (chunk_loop conversation chunk_size indices []).

(** The defaults of the signature: [chunk_size=3], [overlap=1]. *)
Definition default_chunk_size : Z := 3.
Definition default_overlap : Z := 1.

(** The message range of a chunk, as a pair. *)
Definition chunk_range (c : Chunk) : Z * Z :=
  (message_start_idx c, message_end_idx c).

(** The quotient rounded up, for a positive divisor. *)
Definition ceil_div (a b : Z) : Z := (- ((- a) / b))%Z.

(** ** The windows of the chunker, in closed form *)

(** The number of windows over [n] messages: none for no message, else
    the rounded-up quotient, and at least one. *)
Definition chunk_count (n chunk_size overlap : Z) : nat :=
  if (n =? 0)%Z then 0%nat
  else Z.to_nat (Z.max 1 (ceil_div (n - overlap) (chunk_size - overlap))).

(** The [j]-th window: it starts at [j * (chunk_size - overlap)] and ends
    [chunk_size] later or at the last message. *)
Definition nth_chunk (conversation : Conversation) (chunk_size overlap : Z)
    (j : nat) : Chunk :=
  let msgs := conv_messages conversation in
  let i := (Z.of_nat j * (chunk_size - overlap))%Z in
  {| text := chunk_text (Py.slice msgs i (i + chunk_size));
     conversation_id := conv_id conversation;
     conversation_title := conv_title conversation;
     created_at := conv_created_at conversation;
     chunk_index := Z.of_nat j;
     message_start_idx := i;
     message_end_idx := Z.min (i + chunk_size) (Z.of_nat (length msgs));
     messages := Py.slice msgs i (i + chunk_size) |}.

(** A chunk is a window of its conversation: a non-empty range
    [message_start_idx .. message_end_idx) inside the messages, whose
    slice it carries and renders. *)
Definition is_window (conversation : Conversation) (c : Chunk) : Prop :=
  (0 <= message_start_idx c < message_end_idx c)%Z /\
  (message_end_idx c <= Z.of_nat (length (conv_messages conversation)))%Z /\
  messages c
  = Py.slice (conv_messages conversation) (message_start_idx c) (message_end_idx c) /\
  Z.of_nat (length (messages c)) = (message_end_idx c - message_start_idx c)%Z /\
  text c = chunk_text (messages c).

(** A conversation of [n] short messages, for the examples. *)
Definition sample_messages (n : nat) : list Message :=
  map (fun k => mkMessage (if Nat.even k then "user" else "assistant")
                          ("m" +:+ pretty k) "")
      (seq 0 n).

Definition sample_conversation (n : nat) : Conversation :=
  mkConversation "c1" "2024-01-15T10:30:00Z" "Chat" (sample_messages n).

(** ** vector_store.py: the stored data *)

(** The embedding model ([SentenceTransformer]): an external collaborator
    that maps a text to a vector. *)
Class EmbeddingModel : Type := {
  Embedding : Type;
  encode : string -> Embedding
}.

(** The distance of the collection's vector space.  Distances are
    rationals; they stand for the floats the backend reports. *)
Class Metric (E : Type) : Type := {
  distance : E -> E -> Q
}.

(** [json.dumps] and [json.loads] at the type of a message list. *)
Class JsonCodec : Type := {
  json_dumps : list Message -> string;
  json_loads : string -> result (list Message)
}.

(** The metadata dictionary written for each chunk by
    [add_conversations]. *)
Record Metadata : Type := mkMetadata {
  md_conversation_id : string;
  md_conversation_title : string;
  md_created_at : string;
  md_chunk_index : Z;
  md_message_start_idx : Z;
  md_message_end_idx : Z;
  full_chunk_data : string
}.

(** A metadata value, as a [where] filter compares it. *)
Inductive MetaValue : Type :=
  | MStr (s : string)
  | MInt (n : Z).

#[global] Instance MetaValue_eq_dec : EqDecision MetaValue.
Proof. solve_decision. Defined.

Definition metadata_get (md : Metadata) (key : string) : option MetaValue :=
  if String.eqb key "conversation_id" then Some (MStr (md_conversation_id md))
  else if String.eqb key "conversation_title" then Some (MStr (md_conversation_title md))
  else if String.eqb key "created_at" then Some (MStr (md_created_at md))
  else if String.eqb key "chunk_index" then Some (MInt (md_chunk_index md))
  else if String.eqb key "message_start_idx" then Some (MInt (md_message_start_idx md))
  else if String.eqb key "message_end_idx" then Some (MInt (md_message_end_idx md))
  else if String.eqb key "full_chunk_data" then Some (MStr (full_chunk_data md))
  else None.

(** One element of [search]'s result list. *)
Record SearchResult : Type := mkSearchResult {
  res_text : string;
  res_conversation_id : string;
  res_conversation_title : string;
  res_created_at : string;
  res_distance : option Q;
  res_messages : list Message
}.

(** The dictionary returned by [get_stats]. *)
Record Stats : Type := mkStats {
  total_chunks : Z;
  stats_collection_name : string;
  stats_db_path : string
}.

(** [results[0][i]]-style indexing: out of range raises [IndexError]. *)
Definition index {A} (l : list A) (i : nat) : result A :=
  match l !! i with
  | Some x => Ok x
  | None => Raise IndexError
  end.

Section Store.
Context {EM : EmbeddingModel} {MT : Metric Embedding} {JC : JsonCodec}.

(** *** The backing vector store *)

(** Modelled from the spec: the stored record of the persistent vector
    store backend (ChromaDB, an external collaborator), section 3: an
    id-keyed record of vector, document and metadata. *)
Record StoredRecord : Type := mkStoredRecord {
  vector : Embedding;
  document : string;
  metadata : Metadata
}.

(** Modelled from the spec: the backend's [get_or_create_collection],
    section 6 "create/open collection by name": opening an existing name
    keeps its records. *)
Definition get_or_create_collection
    (client : gmap string (gmap string StoredRecord)) (name : string)
    : gmap string (gmap string StoredRecord) :=
  match client !! name with
  | Some _ => client
  | None => <[name := ∅]> client
  end.

(** Modelled from the spec: the backend's [delete_collection], section 6
    "delete collection"; a name that is not there is an error. *)
Definition delete_collection
    (client : gmap string (gmap string StoredRecord)) (name : string)
    : result (gmap string (gmap string StoredRecord)) :=
  match client !! name with
  | Some _ => Ok (delete name client)
  | None => Raise ValueError
  end.

(** Modelled from the spec: the backend's [collection.add], section 4.3
    and 6 "upsert by id with (vector, document, metadata)": the parallel
    lists are written in order, and an id that is already there is
    overwritten. *)
Fixpoint collection_add (col : gmap string StoredRecord)
    (embeddings : list Embedding) (documents : list string)
    (ids : list string) (metadatas : list Metadata)
    : gmap string StoredRecord :=
  match ids, embeddings, documents, metadatas with
  | i :: ids', e :: embeddings', d :: documents', m :: metadatas' =>
      collection_add (<[i := mkStoredRecord e d m]> col)
                     embeddings' documents' ids' metadatas'
  | _, _, _, _ => col
  end.

(** Modelled from the spec: the backend's [collection.count], section 6
    "count records". *)
Definition collection_count (col : gmap string StoredRecord) : Z :=
  Z.of_nat (size col).

(** A [where] filter: every listed metadata key has the listed value. *)
Definition where_matches (filter_dict : option (list (string * MetaValue)))
    (md : Metadata) : bool :=
  match filter_dict with
  | None => true
  | Some conds =>
      forallb (fun kv => bool_decide (metadata_get md (fst kv) = Some (snd kv)))
              conds
  end.

(** A candidate of a query: id, record and distance to the query. *)
Definition Hit : Type := string * StoredRecord * Q.
Definition hit_distance (h : Hit) : Q := snd h.
Definition hit_record (h : Hit) : StoredRecord := snd (fst h).
Definition hit_id (h : Hit) : string := fst (fst h).

Fixpoint insert_hit (h : Hit) (l : list Hit) : list Hit :=
  match l with
  | [] => [h]
  | h' :: l' =>
      if Qle_bool (hit_distance h) (hit_distance h') then h :: l
      else h' :: insert_hit h l'
  end.

Definition sort_hits (l : list Hit) : list Hit := foldr insert_hit [] l.

(** The [k] nearest records of one query vector among those the filter
    keeps, by ascending distance. *)
Definition nearest (col : gmap string StoredRecord) (q : Embedding)
    (k : Z) (filter_dict : option (list (string * MetaValue))) : list Hit :=
  take (Z.to_nat k)
    (sort_hits
       (map (fun kv : string * StoredRecord =>
               (fst kv, snd kv, distance q (vector (snd kv))))
            (filter (fun kv : string * StoredRecord =>
                       where_matches filter_dict (metadata (snd kv)) = true)
                    (map_to_list col)))).

(** The dictionary returned by [collection.query]: one inner list per
    query vector. *)
Record QueryResult : Type := mkQueryResult {
  qr_ids : list (list string);
  qr_documents : list (list string);
  qr_metadatas : list (list Metadata);
  qr_distances : option (list (list Q))
}.

(** Modelled from the spec: the backend's [collection.query], section
    4.3 and 6: "returns up to k nearest records ranked by ascending
    distance", as "(ids, documents, metadatas, distances)"; "empty
    collection returns an empty result, never an error". *)
Definition collection_query (col : gmap string StoredRecord)
    (query_embeddings : list Embedding) (n_results : Z)
    (filter_dict : option (list (string * MetaValue))) : QueryResult :=
  let hits := map (fun q => nearest col q n_results filter_dict) query_embeddings in
  {| qr_ids := map (map hit_id) hits;
     qr_documents := map (map (fun h => document (hit_record h))) hits;
     qr_metadatas := map (map (fun h => metadata (hit_record h))) hits;
     qr_distances := Some (map (map hit_distance) hits) |}.

(** *** ConversationVectorStore *)

(** The state of a [ConversationVectorStore]: [self.db_path],
    [self.collection_name], and the collections of [self.client] by name.
    [self.collection] is the handle of the collection named
    [collection_name]. *)
Record Store : Type := mkStore {
  db_path : string;
  collection_name : string;
  client : gmap string (gmap string StoredRecord)
}.

(** The records behind the handle [self.collection]. *)
Definition collection (s : Store) : gmap string StoredRecord :=
  default ∅ (client s !! collection_name s).

(** A write through the handle [self.collection]. *)
Definition set_collection (s : Store) (col : gmap string StoredRecord) : Store :=
  {| db_path := db_path s;
     collection_name := collection_name s;
     client := <[collection_name s := col]> (client s) |}.

(** [__init__], on the collections persisted at [db_path]. *)
Definition init (persisted : gmap string (gmap string StoredRecord))
    (path name : string) : Store :=
  {| db_path := path;
     collection_name := name;
     client := get_or_create_collection persisted name |}.

(** The id under which a chunk is stored:
    ["{conversation_id}_chunk_{chunk_index}"]. *)
Definition chunk_id (chunk : Chunk) : string :=
  conversation_id chunk +:+ "_chunk_" +:+ Py.str_int (chunk_index chunk).

Definition chunk_metadata (chunk : Chunk) : Metadata :=
  {| md_conversation_id := conversation_id chunk;
     md_conversation_title := conversation_title chunk;
     md_created_at := created_at chunk;
     md_chunk_index := chunk_index chunk;
     md_message_start_idx := message_start_idx chunk;
     md_message_end_idx := message_end_idx chunk;
     full_chunk_data := json_dumps (messages chunk) |}.

(** The first loop of [add_conversations]: every conversation is chunked
    with the default parameters and the chunks are collected in order. *)
Fixpoint chunk_all (conversations : list Conversation)
    (all_chunks : list Chunk) : result (list Chunk) :=
  match conversations with
  | [] => Ok all_chunks
  | conversation :: rest =>
      chunks ← chunk_conversation conversation default_chunk_size default_overlap;
      chunk_all rest (all_chunks ++ chunks)
  end.

(** One iteration of the batch loop, for the batch starting at [i]. *)
Definition add_batch (texts : list string) (ids : list string)
    (metadatas : list Metadata) (batch_size : Z)
    (col : gmap string StoredRecord) (i : Z) : gmap string StoredRecord :=
  let batch_end := Z.min (i + batch_size) (Z.of_nat (length texts)) in
  let batch_embeddings := map encode (Py.slice texts i batch_end) in
  collection_add col batch_embeddings (Py.slice texts i batch_end)
                 (Py.slice ids i batch_end) (Py.slice metadatas i batch_end).

Definition add_conversations (s : Store) (conversations : list Conversation)
    (batch_size : Z) : result (Store * Z) :=
  all_chunks ← chunk_all conversations [];
  let texts := map text all_chunks in
  let ids := map chunk_id all_chunks in
  let metadatas := map chunk_metadata all_chunks in
  starts ← Py.range 0 (Z.of_nat (length texts)) batch_size;
  let col := foldl (add_batch texts ids metadatas batch_size) (collection s) starts in
  Ok (set_collection s col, Z.of_nat (length all_chunks)).

(** The default of the signature: [batch_size=100]. *)
Definition default_batch_size : Z := 100.

(** The dictionary built for result [i] in [search]. *)
Definition format_result (results : QueryResult) (i : nat) : result SearchResult :=
  docs0 ← index (qr_documents results) 0;
  txt ← index docs0 i;
  mds0 ← index (qr_metadatas results) 0;
  md ← index mds0 i;
  dist ← match qr_distances results with
         | Some ds => ds0 ← index ds 0; d ← index ds0 i; Ok (Some d)
         | None => Ok None
         end;
  msgs ← json_loads (full_chunk_data md);
  Ok {| res_text := txt;
        res_conversation_id := md_conversation_id md;
        res_conversation_title := md_conversation_title md;
        res_created_at := md_created_at md;
        res_distance := dist;
        res_messages := msgs |}.

(** The loop [for i in range(len(results['documents'][0]))]. *)
Fixpoint format_loop (results : QueryResult) (indices : list nat)
    (formatted_results : list SearchResult) : result (list SearchResult) :=
  match indices with
  | [] => Ok formatted_results
  | i :: rest =>
      r ← format_result results i;
      format_loop results rest (formatted_results ++ [r])
  end.

Definition search (s : Store) (query : string) (n_results : Z)
    (filter_dict : option (list (string * MetaValue)))
    : result (list SearchResult) :=
  let query_embedding := encode query in
  let results :=
    collection_query (collection s) [query_embedding] n_results filter_dict in
  match qr_documents results with
  | [] => Ok []
  | [] :: _ => Ok []
  | docs0 :: _ => format_loop results (seq 0 (length docs0)) []
  end.

Definition get_stats (s : Store) : Stats :=
  {| total_chunks := collection_count (collection s);
     stats_collection_name := collection_name s;
     stats_db_path := db_path s |}.

Definition reset (s : Store) : result Store :=
  client' ← delete_collection (client s) (collection_name s);
  Ok {| db_path := db_path s;
        collection_name := collection_name s;
        client := get_or_create_collection client' (collection_name s) |}.

(** A sequence of [add_conversations] calls, each with its conversations
    and batch size. *)
Fixpoint add_many (s : Store) (calls : list (list Conversation * Z))
    : result Store :=
  match calls with
  | [] => Ok s
  | (conversations, batch_size) :: rest =>
      r ← add_conversations s conversations batch_size;
      add_many (fst r) rest
  end.

(** *** The writes of an import, in closed form *)

(** The id and record written for a chunk. *)
Definition chunk_record (chunk : Chunk) : string * StoredRecord :=
  (chunk_id chunk,
   mkStoredRecord (encode (text chunk)) (text chunk) (chunk_metadata chunk)).

(** The id-record pairs of parallel lists, as [collection_add] pairs
    them. *)
Fixpoint zip_records (embeddings : list Embedding) (documents : list string)
    (ids : list string) (metadatas : list Metadata)
    : list (string * StoredRecord) :=
  match ids, embeddings, documents, metadatas with
  | i :: ids', e :: embeddings', d :: documents', m :: metadatas' =>
      (i, mkStoredRecord e d m) :: zip_records embeddings' documents' ids' metadatas'
  | _, _, _, _ => []
  end.

(** The pairs written by the batch starting at [i]. *)
Definition batch_records (texts : list string) (ids : list string)
    (metadatas : list Metadata) (batch_size : Z) (i : Z)
    : list (string * StoredRecord) :=
  let batch_end := Z.min (i + batch_size) (Z.of_nat (length texts)) in
  zip_records (map encode (Py.slice texts i batch_end)) (Py.slice texts i batch_end)
              (Py.slice ids i batch_end) (Py.slice metadatas i batch_end).

(** Writing id-record pairs one after the other, a later pair replacing
    an earlier one with the same id. *)
Definition upsert_all (col : gmap string StoredRecord)
    (recs : list (string * StoredRecord)) : gmap string StoredRecord :=
  foldl (fun c kv => <[fst kv := snd kv]> c) col recs.

(** One hit is at least as near to the query as another. *)
Definition closer (a b : Hit) : Prop := (hit_distance a <= hit_distance b)%Q.

(** The handle [self.collection] names a collection of the client. *)
Definition has_collection (s : Store) : Prop :=
  is_Some (client s !! collection_name s).

(** How a search result presents a hit. *)
Definition presents (h : Hit) (r : SearchResult) : Prop :=
  res_text r = document (hit_record h) /\
  res_conversation_id r = md_conversation_id (metadata (hit_record h)) /\
  res_conversation_title r = md_conversation_title (metadata (hit_record h)) /\
  res_created_at r = md_created_at (metadata (hit_record h)) /\
  res_distance r = Some (hit_distance h) /\
  json_loads (full_chunk_data (metadata (hit_record h))) = Ok (res_messages r).

(** The result dictionary [search] builds for one hit; it raises when
    the stored message slice does not parse. *)
Definition present_hit (h : Hit) : result SearchResult :=
  msgs ← json_loads (full_chunk_data (metadata (hit_record h)));
  Ok {| res_text := document (hit_record h);
        res_conversation_id := md_conversation_id (metadata (hit_record h));
        res_conversation_title := md_conversation_title (metadata (hit_record h));
        res_created_at := md_created_at (metadata (hit_record h));
        res_distance := Some (hit_distance h);
        res_messages := msgs |}.

(** The results for a list of hits, in order, up to the first one that
    raises. *)
Fixpoint present_all (hits : list Hit) (formatted : list SearchResult)
    : result (list SearchResult) :=
  match hits with
  | [] => Ok formatted
  | h :: rest => r ← present_hit h; present_all rest (formatted ++ [r])
  end.


End Store.

(** The chunks [add_conversations] makes of a conversation list: the
    windows of each conversation under the default parameters, in
    order. *)
Definition conversation_chunks (conversations : list Conversation) : list Chunk :=
  concat
    (map (fun c =>
            map (nth_chunk c default_chunk_size default_overlap)
                (seq 0 (chunk_count (Z.of_nat (length (conv_messages c)))
                                    default_chunk_size default_overlap)))
         conversations).

(** ** cli.py: cmd_search *)

(** The relevance printed for a result: [1 - result['distance']], when the
    distance is not [None]. *)
Definition relevance (r : SearchResult) : option Q :=
  match res_distance r with
  | Some d => Some (1 - d)%Q
  | None => None
  end.

(** ** cli.py: cmd_reset *)

(** [cmd_reset], on the collections persisted at [db_path]: [yes] is the
    [--yes] flag, and [response] is the line [input] reads when the flag
    is not given.  The result is the persisted collections afterwards. *)
Definition cmd_reset {EM : EmbeddingModel} (yes : bool) (response : string)
    (persisted : gmap string (gmap string StoredRecord))
    (path name : string)
    : result (gmap string (gmap string StoredRecord)) :=
  if negb yes && negb (String.eqb (Py.lower response) "yes") then Ok persisted
  else
    s ← reset (init persisted path name);
    Ok (client s).

(** ** conversation_downloader.py *)

(** A parsed JSON value, as [json.load] returns it.  An object is the
    list of its bindings in order, with distinct keys. *)
#[warnings="-register-all"]
Inductive json : Type :=
  | JNull
  | JBool (b : bool)
  | JNum (q : Q)
  | JStr (s : string)
  | JArr (items : list json)
  | JObj (fields : list (string * json)).

(** [d.get(key, default)] on a dictionary. *)
Fixpoint dict_get (d : list (string * json)) (key : string) (default : json) : json :=
  match d with
  | [] => default
  | (k, v) :: d' => if String.eqb k key then v else dict_get d' key default
  end.

(** [key in d]. *)
Definition dict_has (d : list (string * json)) (key : string) : bool :=
  existsb (fun kv => String.eqb (fst kv) key) d.

(** [v.get(key, default)]: only a dictionary has [get]. *)
Definition py_get (v : json) (key : string) (default : json) : result json :=
  match v with
  | JObj d => Ok (dict_get d key default)
  | _ => Raise AttributeError
  end.

Fixpoint chars (s : string) : list json :=
  match s with
  | EmptyString => []
  | String c s' => JStr (String c EmptyString) :: chars s'
  end.

(** [for x in v]: a list yields its items, a dictionary its keys, a string
    its characters; nothing else is iterable. *)
Definition iterate (v : json) : result (list json) :=
  match v with
  | JArr items => Ok items
  | JObj d => Ok (map (fun kv => JStr (fst kv)) d)
  | JStr s => Ok (chars s)
  | _ => Raise TypeError
  end.

(** The readings of [datetime.now()] taken while the conversation at
    index [idx] is normalized, as the code renders them. *)
Class Clock : Type := {
  now_timestamp : nat -> string;
  now_isoformat : nat -> string
}.

(** A normalized message; each field is whatever JSON value the lookup
    found. *)
Record NormalizedMessage : Type := mkNormalizedMessage {
  n_role : json;
  n_content : json;
  n_timestamp : json
}.

Record NormalizedConversation : Type := mkNormalizedConversation {
  n_id : json;
  n_created_at : json;
  n_title : json;
  n_messages : list NormalizedMessage
}.

(** The loop over the blocks of a list-valued content. *)
Fixpoint text_parts (blocks : list json) (parts : list json) : list json :=
  match blocks with
  | [] => parts
  | block :: rest =>
      match block with
      | JObj d =>
          match dict_get d "type" JNull with
          | JStr t =>
              if String.eqb t "text"
              then text_parts rest (parts ++ [dict_get d "text" (JStr "")])
              else text_parts rest parts
          | _ => text_parts rest parts
          end
      | JStr _ => text_parts rest (parts ++ [block])
      | _ => text_parts rest parts
      end
  end.

(** ['\n'.join(parts)]: every part must be a string. *)
Fixpoint join_lines (parts : list json) : result string :=
  match parts with
  | [] => Ok EmptyString
  | [JStr p] => Ok p
  | JStr p :: ps => r ← join_lines ps; Ok (p +:+ Py.newline +:+ r)
  | _ :: _ => Raise TypeError
  end.

(** The role lookup of a message dictionary:
    [msg.get('role', msg.get('sender', 'unknown'))]. *)
Definition raw_role (d : list (string * json)) : json :=
  dict_get d "role" (dict_get d "sender" (JStr "unknown")).

(** The content lookup of a message dictionary:
    [msg.get('content', msg.get('text', ''))]. *)
Definition raw_content (d : list (string * json)) : json :=
  dict_get d "content" (dict_get d "text" (JStr "")).

(** The message list lookup of a conversation dictionary:
    [convo.get('messages', convo.get('chat_messages', []))]. *)
Definition raw_messages_of (d : list (string * json)) : json :=
  dict_get d "messages" (dict_get d "chat_messages" (JArr [])).

(** The body of [for msg in messages]. *)
Definition normalize_message (msg : json) : result NormalizedMessage :=
  sender ← py_get msg "sender" (JStr "unknown");
  r ← py_get msg "role" sender;
  txt ← py_get msg "text" (JStr "");
  c ← py_get msg "content" txt;
  created ← py_get msg "created_at" (JStr "");
  ts ← py_get msg "timestamp" created;
  c' ← match c with
       | JArr blocks => joined ← join_lines (text_parts blocks []); Ok (JStr joined)
       | _ => Ok c
       end;
  Ok {| n_role := r; n_content := c'; n_timestamp := ts |}.

Fixpoint normalize_messages (msgs : list json)
    (normalized : list NormalizedMessage) : result (list NormalizedMessage) :=
  match msgs with
  | [] => Ok normalized
  | msg :: rest =>
      m ← normalize_message msg;
      normalize_messages rest (normalized ++ [m])
  end.

Section Importer.
Context {CK : Clock}.

(** The body of [for idx, convo in enumerate(raw_conversations)]. *)
Definition normalize_conversation (idx : nat) (convo : json)
    : result NormalizedConversation :=
  i ← py_get convo "id"
        (JStr ("conv_" +:+ pretty idx +:+ "_" +:+ now_timestamp idx));
  ts ← py_get convo "timestamp" (JStr (now_isoformat idx));
  created ← py_get convo "created_at" ts;
  name ← py_get convo "name" (JStr ("Conversation " +:+ pretty (idx + 1)%nat));
  title ← py_get convo "title" name;
  chat ← py_get convo "chat_messages" (JArr []);
  raw_messages ← py_get convo "messages" chat;
  msgs ← iterate raw_messages;
  normalized ← normalize_messages msgs [];
  Ok {| n_id := i; n_created_at := created; n_title := title;
        n_messages := normalized |}.

Fixpoint normalize_loop (idx : nat) (raw : list json)
    (normalized : list NormalizedConversation)
    : result (list NormalizedConversation) :=
  match raw with
  | [] => Ok normalized
  | convo :: rest =>
      c ← normalize_conversation idx convo;
      normalize_loop (S idx) rest (normalized ++ [c])
  end.

Definition _normalize_conversations (raw_conversations : json)
    : result (list NormalizedConversation) :=
  raw ← iterate raw_conversations;
  normalize_loop 0 raw [].

(** [import_from_json_export], on the outcome of opening the file and
    [json.load]: the parsed value, or the exception raised. *)
Definition import_from_json_export (loaded : result json)
    : result (list NormalizedConversation) :=
  data ← loaded;
  let conversations :=
    match data with
    | JArr _ => data
    | JObj d => if dict_has d "conversations"
                then dict_get d "conversations" JNull
                else JArr [data]
    | _ => JArr [data]
    end in
  _normalize_conversations conversations.

(** The loop of [import_from_directory] over the files that
    [glob("*.json")] yields, each with the outcome of loading it; the
    second component collects the errors printed. *)
Fixpoint import_loop (files : list (string * result json))
    (all_conversations : list NormalizedConversation)
    (errors : list (string * exn))
    : list NormalizedConversation * list (string * exn) :=
  match files with
  | [] => (all_conversations, errors)
  | (json_file, loaded) :: rest =>
      match import_from_json_export loaded with
      | Ok convos => import_loop rest (all_conversations ++ convos) errors
      | Raise e => import_loop rest all_conversations (errors ++ [(json_file, e)])
      end
  end.

Definition import_from_directory (files : list (string * result json))
    : list NormalizedConversation * list (string * exn) :=
  import_loop files [] [].

(** What one file contributes when imported on its own: its
    conversations if it is well-formed, nothing if importing it raises. *)
Definition file_conversations (file : string * result json)
    : list NormalizedConversation :=
  match import_from_json_export (snd file) with
  | Ok convos => convos
  | Raise _ => []
  end.

(** The error a malformed file raises, with the file's name. *)
Definition file_errors (file : string * result json) : list (string * exn) :=
  match import_from_json_export (snd file) with
  | Ok _ => []
  | Raise e => [(fst file, e)]
  end.

End Importer.

(** A raw message and its normalized form agree on the role lookup. *)
Definition role_passed_through (msg : json) (m : NormalizedMessage) : Prop :=
  exists d, msg = JObj d /\ n_role m = raw_role d.

(** A raw conversation and its normalized form: the messages are those
    under [messages], else [chat_messages], each with its role passed
    through. *)
Definition roles_passed_through (convo : json) (c : NormalizedConversation) : Prop :=
  exists d msgs,
    convo = JObj d /\
    iterate (dict_get d "messages" (dict_get d "chat_messages" (JArr []))) = Ok msgs /\
    Forall2 role_passed_through msgs (n_messages c).

(** What one content block contributes to the flattened text: the [text]
    of a block of type [text], a bare string itself, nothing
    otherwise. *)
Definition block_part (block : json) : option json :=
  match block with
  | JObj d =>
      match dict_get d "type" JNull with
      | JStr t => if String.eqb t "text" then Some (dict_get d "text" (JStr "")) else None
      | _ => None
      end
  | JStr _ => Some block
  | _ => None
  end.

Definition is_string (v : json) : bool :=
  match v with JStr _ => true | _ => false end.

Definition is_array (v : json) : bool :=
  match v with JArr _ => true | _ => false end.

Definition is_object (v : json) : bool :=
  match v with JObj _ => true | _ => false end.

(** The dictionary of a normalized message, as a JSON value. *)
Definition message_to_json (m : NormalizedMessage) : json :=
  JObj [("role", n_role m); ("content", n_content m); ("timestamp", n_timestamp m)].

(** The dictionary of a normalized conversation, as a JSON value. *)
Definition conversation_to_json (c : NormalizedConversation) : json :=
  JObj [("id", n_id c); ("created_at", n_created_at c); ("title", n_title c);
        ("messages", JArr (map message_to_json (n_messages c)))].

(** The roles that the data model names. *)
Definition known_roles : list json :=
  [JStr "user"; JStr "assistant"; JStr "system"; JStr "unknown"].

(** The normalization scenario:
    [{"name": "Chat A", "chat_messages": [{"sender": "human", "text": "hi"}]}]. *)
Definition chat_a : json :=
  JObj [("name", JStr "Chat A");
        ("chat_messages",
         JArr [JObj [("sender", JStr "human"); ("text", JStr "hi")]])].

(** A wrapped export: [{"conversations": [...]}]. *)
Definition wrapped_export : json :=
  JObj [("conversations", JArr [chat_a; chat_a])].

(** A directory with three well-formed files and a corrupt one. *)
Definition scenario_files : list (string * result json) :=
  [("a.json", Ok (JArr [chat_a]));
   ("b.json", Raise JSONDecodeError);
   ("c.json", Ok chat_a);
   ("d.json", Ok wrapped_export)].

(** A message in the style of the Claude API: content blocks of which
    two bear text. *)
Definition block_message : list (string * json) :=
  [("role", JStr "assistant");
   ("content",
    JArr [JObj [("type", JStr "text"); ("text", JStr "first")];
          JObj [("type", JStr "image"); ("source", JStr "data")];
          JStr "second"])].

(** A message whose text block holds no string. *)
Definition null_text_message : list (string * json) :=
  [("role", JStr "assistant");
   ("content", JArr [JObj [("type", JStr "text"); ("text", JNull)]])].

Definition later_clock : Clock :=
  {| now_timestamp := fun _ => "1705314700.5";
     now_isoformat := fun _ => "2024-01-15T10:31:40" |}.

Definition fixed_clock : Clock :=
  {| now_timestamp := fun _ => "1705314600.0";
     now_isoformat := fun _ => "2024-01-15T10:30:00" |}.

(** Results are ordered best first: a result never has a greater
    distance than a result after it. *)
Definition best_first (results : list SearchResult) : Prop :=
  forall (i j : nat) (ri rj : SearchResult),
    (i <= j)%nat -> results !! i = Some ri -> results !! j = Some rj ->
    exists di dj,
      res_distance ri = Some di /\ res_distance rj = Some dj /\ (di <= dj)%Q.

(** ** Instances for the examples *)

(** An embedding model that sends a text to its length. *)
Definition length_embedding : EmbeddingModel :=
  {| Embedding := Z; encode := fun s => Z.of_nat (String.length s) |}.

Definition abs_metric : Metric Z :=
  {| distance := fun a b => inject_Z (Z.abs (a - b)) |}.

Definition dquote : ascii := ascii_of_nat 34.
Definition backslash : ascii := ascii_of_nat 92.
Definition quoted (s : string) : string :=
  String dquote s +:+ String dquote EmptyString.

(** The escapes of a JSON string literal. *)
Fixpoint escape (s : string) : string :=
  match s with
  | EmptyString => EmptyString
  | String c s' =>
      if Ascii.eqb c dquote then String backslash (String dquote (escape s'))
      else if Ascii.eqb c backslash then String backslash (String backslash (escape s'))
      else if Ascii.eqb c (ascii_of_nat 10) then String backslash (String "n" (escape s'))
      else if Ascii.eqb c (ascii_of_nat 13) then String backslash (String "r" (escape s'))
      else if Ascii.eqb c (ascii_of_nat 9) then String backslash (String "t" (escape s'))
      else String c (escape s')
  end.

Definition unescape (c : ascii) : ascii :=
  if Ascii.eqb c "n" then ascii_of_nat 10
  else if Ascii.eqb c "r" then ascii_of_nat 13
  else if Ascii.eqb c "t" then ascii_of_nat 9
  else c.

Definition write_message (m : Message) : string :=
  "{" +:+ quoted "role" +:+ ": " +:+ quoted (escape (role m)) +:+ ", "
  +:+ quoted "content" +:+ ": " +:+ quoted (escape (content m)) +:+ ", "
  +:+ quoted "timestamp" +:+ ": " +:+ quoted (escape (timestamp m)) +:+ "}".

(** The text [json.dumps] writes for a list of message dictionaries. *)
Definition write_messages (ms : list Message) : string :=
  "[" +:+ Py.join ", " (map write_message ms) +:+ "]".

(** Strip a literal prefix. *)
Fixpoint expect (p s : string) : option string :=
  match p with
  | EmptyString => Some s
  | String a p' =>
      match s with
      | String b s' => if Ascii.eqb a b then expect p' s' else None
      | EmptyString => None
      end
  end.

(** Read the body of a string literal up to its closing quote. *)
Fixpoint read_string (s : string) : option (string * string) :=
  match s with
  | EmptyString => None
  | String c s' =>
      if Ascii.eqb c dquote then Some (EmptyString, s')
      else if Ascii.eqb c backslash then
        match s' with
        | String e s'' =>
            match read_string s'' with
            | Some (body, rest) => Some (String (unescape e) body, rest)
            | None => None
            end
        | EmptyString => None
        end
      else
        match read_string s' with
        | Some (body, rest) => Some (String c body, rest)
        | None => None
        end
  end.

Definition read_field (key : string) (s : string) : option (string * string) :=
  s1 ← expect (quoted key +:+ ": " +:+ String dquote EmptyString) s;
  read_string s1.

Definition read_message (s : string) : option (Message * string) :=
  s1 ← expect "{" s;
  '(r, s2) ← read_field "role" s1;
  s3 ← expect ", " s2;
  '(c, s4) ← read_field "content" s3;
  s5 ← expect ", " s4;
  '(t, s6) ← read_field "timestamp" s5;
  s7 ← expect "}" s6;
  Some (mkMessage r c t, s7).

Fixpoint read_messages (fuel : nat) (s : string) : option (list Message) :=
  match fuel with
  | O => None
  | S fuel' =>
      '(m, s1) ← read_message s;
      match expect "]" s1 with
      | Some EmptyString => Some [m]
      | Some _ => None
      | None => s2 ← expect ", " s1; ms ← read_messages fuel' s2; Some (m :: ms)
      end
  end.

Definition parse_messages (s : string) : result (list Message) :=
  match expect "[]" s with
  | Some EmptyString => Ok []
  | _ =>
      match s1 ← expect "[" s; read_messages (String.length s) s1 with
      | Some ms => Ok ms
      | None => Raise JSONDecodeError
      end
  end.

Definition text_codec : JsonCodec :=
  {| json_dumps := write_messages; json_loads := parse_messages |}.

(** A fresh store at the default path and collection name. *)
Definition fresh_store : Store (EM := length_embedding) :=
  init (EM := length_embedding) ∅ "./chroma_db" "claude_conversations".

(** The store after importing a conversation of 21 messages (10 chunks)
    into a fresh store. *)
Definition sample_store : Store (EM := length_embedding) :=
  match add_conversations (EM := length_embedding) (JC := text_codec)
          fresh_store [sample_conversation 21] default_batch_size with
  | Ok (s, _) => s
  | Raise _ => fresh_store
  end.

(** The store after importing a conversation of 5 messages (2 chunks)
    into a fresh store. *)
Definition small_store : Store (EM := length_embedding) :=
  match add_conversations (EM := length_embedding) (JC := text_codec)
          fresh_store [sample_conversation 5] default_batch_size with
  | Ok (s, _) => s
  | Raise _ => fresh_store
  end.

(** A store whose collection holds one record that some other writer
    left with a [full_chunk_data] that is no JSON. *)
Definition foreign_store : Store (EM := length_embedding) :=
  set_collection (EM := length_embedding) small_store
    (<["note_1" := mkStoredRecord (EM := length_embedding) 8%Z "User: m2"
                     (mkMetadata "note" "Note" "" 0 0 1 "oops")]>
       (collection small_store)).

(** * Properties *)


(** ** Python prelude *)

Lemma slice_length {A} (l : list A) (lo hi : Z) :
  (0 <= lo <= hi)%Z ->
  Z.of_nat (length (Py.slice l lo hi))
  = (Z.min hi (Z.of_nat (length l)) - Z.min lo (Z.of_nat (length l)))%Z.
Proof.
  intros Hb. unfold Py.slice, Py.slice_bound.
  destruct (Z.ltb_spec lo 0); [lia|].
  destruct (Z.ltb_spec hi 0); [lia|].
  rewrite length_take, length_drop. lia.
Qed.

Lemma slice_take_drop {A} (l : list A) (lo hi : Z) :
  (0 <= lo <= hi)%Z -> (hi <= Z.of_nat (length l))%Z ->
  Py.slice l lo hi = take (Z.to_nat (hi - lo)) (drop (Z.to_nat lo) l).
Proof.
  intros Hb Hn. unfold Py.slice, Py.slice_bound.
  destruct (Z.ltb_spec lo 0); [lia|].
  destruct (Z.ltb_spec hi 0); [lia|].
  by rewrite !Z.min_l by lia.
Qed.

Lemma slice_map {A B} (f : A -> B) (l : list A) (lo hi : Z) :
  Py.slice (map f l) lo hi = map f (Py.slice l lo hi).
Proof.
  unfold Py.slice. rewrite length_map.
  change (@map A B f) with (@fmap list _ A B f).
  by rewrite fmap_take, fmap_drop.
Qed.

Lemma range_zero_step (start stop : Z) : Py.range start stop 0 = Raise ValueError.
Proof. reflexivity. Qed.

Lemma range_from_zero (n step : Z) :
  (0 < step)%Z -> (0 < n)%Z ->
  Py.range 0 n step
  = Ok (map (fun k : nat => (0 + Z.of_nat k * step)%Z)
            (seq 0 (Z.to_nat (1 + (n - 1) / step)))).
Proof.
  intros Hs Hn. unfold Py.range, Py.range_len.
  destruct (Z.eqb_spec step 0); [lia|].
  destruct (Z.ltb_spec 0 step); [|lia].
  destruct (Z.ltb_spec 0 n); [|lia].
  by rewrite Z.sub_0_r.
Qed.

Lemma range_empty (n step : Z) :
  (step <> 0)%Z -> (n <= 0)%Z -> (0 < step)%Z \/ (n = 0)%Z ->
  Py.range 0 n step = Ok [].
Proof.
  intros Hs Hn Hc. unfold Py.range, Py.range_len.
  destruct (Z.eqb_spec step 0); [lia|].
  destruct (Z.ltb_spec 0 step), (Z.ltb_spec 0 n), (Z.ltb_spec n 0);
    try lia; reflexivity.
Qed.

(** ** The chunker *)

Lemma ceil_div_bounds (a b : Z) :
  (0 < b)%Z -> (a <= ceil_div a b * b < a + b)%Z.
Proof.
  intros Hb. unfold ceil_div.
  pose proof (Z.div_mod (- a) b ltac:(lia)) as Hdm.
  pose proof (Z.mod_pos_bound (- a) b Hb) as Hm.
  replace (- (- a / b) * b)%Z with (- (b * (- a / b)))%Z by ring.
  lia.
Qed.

Section Chunker.
Variable conversation : Conversation.
Variables chunk_size overlap : Z.
Hypothesis overlap_nonneg : (0 <= overlap)%Z.
Hypothesis overlap_lt : (overlap < chunk_size)%Z.

Let msgs := conv_messages conversation.
Let n := Z.of_nat (length msgs).
Let stride := (chunk_size - overlap)%Z.
Let count := chunk_count n chunk_size overlap.

(** The last window reaches the end of the messages. *)
Lemma last_window_reaches_end :
  (0 < n)%Z -> (n <= (Z.of_nat count - 1) * stride + chunk_size)%Z.
Proof.
  intros Hn. subst count stride. unfold chunk_count.
  destruct (Z.eqb_spec n 0); [lia|].
  pose proof (ceil_div_bounds (n - overlap) (chunk_size - overlap) ltac:(lia)).
  rewrite Z2Nat.id by lia. nia.
Qed.

(** Every earlier window ends before the last message. *)
Lemma earlier_window_short (k : nat) :
  (S k < count)%nat -> (Z.of_nat k * stride + chunk_size < n)%Z.
Proof.
  subst count stride. unfold chunk_count.
  destruct (Z.eqb_spec n 0); [lia|]. intros Hk.
  pose proof (ceil_div_bounds (n - overlap) (chunk_size - overlap) ltac:(lia)).
  assert (Z.of_nat (S k) < Z.max 1 (ceil_div (n - overlap) (chunk_size - overlap)))%Z
    as Hlt by lia.
  nia.
Qed.

Lemma window_starts_inside (k : nat) :
  (0 < n)%Z -> (k < count)%nat -> (Z.of_nat k * stride < n)%Z.
Proof.
  intros Hn Hk. destruct k as [|k]; [lia|].
  pose proof (earlier_window_short k Hk). subst stride. nia.
Qed.

Lemma count_pos : (0 < n)%Z -> (0 < count)%nat.
Proof.
  intros Hn. subst count. unfold chunk_count.
  destruct (Z.eqb_spec n 0); lia.
Qed.

Lemma make_chunk_nth (chunks : list Chunk) (k : nat) :
  length chunks = k -> (Z.of_nat k * stride <= n)%Z ->
  make_chunk conversation chunks (Z.of_nat k * stride)
    (Py.slice msgs (Z.of_nat k * stride) (Z.of_nat k * stride + chunk_size))
  = nth_chunk conversation chunk_size overlap k.
Proof.
  intros Hl Hle. unfold make_chunk, nth_chunk. fold msgs. fold stride.
  f_equal; [by rewrite Hl|].
  rewrite slice_length by (subst stride; nia). fold n.
  assert (0 <= Z.of_nat k * stride)%Z by (subst stride; nia).
  lia.
Qed.

Lemma chunk_loop_windows (m k : nat) (chunks : list Chunk) :
  (0 < n)%Z -> length chunks = k -> (k < count)%nat -> (count <= k + m)%nat ->
  chunk_loop conversation chunk_size
    (map (fun j : nat => (0 + Z.of_nat j * stride)%Z) (seq k m)) chunks
  = chunks ++ map (nth_chunk conversation chunk_size overlap) (seq k (count - k)).
Proof.
  intros Hn. revert k chunks.
  induction m as [|m IH]; intros k chunks Hl Hk Hm; [lia|].
  cbn [seq map chunk_loop]. rewrite Z.add_0_l. fold msgs.
  pose proof (window_starts_inside k Hn Hk) as Hin.
  assert (0 <= Z.of_nat k * stride)%Z as Hpos by (subst stride; nia).
  pose proof (slice_length msgs (Z.of_nat k * stride)
                (Z.of_nat k * stride + chunk_size) ltac:(lia)) as Hlen.
  fold n in Hlen.
  pose proof (make_chunk_nth chunks k Hl ltac:(lia)) as Hmk.
  destruct (Py.slice msgs (Z.of_nat k * stride) (Z.of_nat k * stride + chunk_size))
    as [|m0 ms] eqn:Hs.
  { cbn [length] in Hlen. lia. }
  rewrite Hmk. fold n.
  destruct (Z.leb_spec n (Z.of_nat k * stride + chunk_size)) as [Hend|Hmore].
  - assert (count = S k) as ->.
    { destruct (decide (S k < count)%nat) as [Hlt|]; [|lia].
      pose proof (earlier_window_short k Hlt). lia. }
    by replace (S k - k)%nat with 1%nat by lia.
  - assert (S k < count)%nat as Hlt.
    { pose proof (last_window_reaches_end Hn).
      destruct (decide (S k < count)%nat); [done|].
      assert (count = S k) as Hc by lia. rewrite Hc in *.
      replace (Z.of_nat (S k) - 1)%Z with (Z.of_nat k) in * by lia. lia. }
    rewrite IH by (rewrite ?length_app; cbn [length]; lia).
    rewrite <- app_assoc. cbn [app].
    replace (count - k)%nat with (S (count - S k)) by lia.
    reflexivity.
Qed.

(** [chunk_conversation] returns, and its chunks are the windows. *)
Lemma chunk_conversation_windows :
  chunk_conversation conversation chunk_size overlap
  = Ok (map (nth_chunk conversation chunk_size overlap) (seq 0 count)).
Proof.
  unfold chunk_conversation. fold msgs n stride.
  destruct (decide (n = 0%Z)) as [Hz|Hnz].
  - rewrite Hz, range_empty by (subst stride; lia).
    subst count. by rewrite Hz.
  - assert (0 < n)%Z as Hn by lia.
    rewrite range_from_zero by (subst stride; lia).
    cbn [mbind result_bind Py.bind].
    rewrite chunk_loop_windows; [by rewrite Nat.sub_0_r | done | done | | ].
    + by apply count_pos.
    + pose proof (window_starts_inside (count - 1) Hn) as Hin.
      pose proof (count_pos Hn).
      assert (Z.of_nat (count - 1) <= (n - 1) / stride)%Z.
      { apply Z.div_le_lower_bound; [subst stride; lia|]. 
        specialize (Hin ltac:(lia)). lia. }
      lia.
Qed.

End Chunker.

(** C1 (as stated): for every conversation with [n] messages and
    [0 < overlap < chunk_size], [chunk_conversation] returns exactly
    [ceil((n - overlap) / (chunk_size - overlap))] chunks when [n > 0] and
    none when [n = 0].  This fails: one message with the default
    parameters gives one chunk, and the formula gives zero. *)
Lemma chunk_count_formula_counterexample :
  ~ (forall (conversation : Conversation) (chunk_size overlap : Z),
       (0 < overlap < chunk_size)%Z ->
       exists chunks,
         chunk_conversation conversation chunk_size overlap = Ok chunks /\
         Z.of_nat (length chunks)
         = if (Z.of_nat (length (conv_messages conversation)) =? 0)%Z then 0%Z
           else ceil_div (Z.of_nat (length (conv_messages conversation)) - overlap)
                         (chunk_size - overlap)).
Proof.
  intros Hclaim.
  destruct (Hclaim (sample_conversation 1) 3%Z 1%Z ltac:(lia)) as (chunks & Hrun & Hlen).
  vm_compute in Hrun. injection Hrun as <-.
  vm_compute in Hlen. discriminate Hlen.
Qed.

(** C1 (amended): for every conversation with [n] messages and
    [0 < overlap < chunk_size], [chunk_conversation] returns
    [max 1 (ceil((n - overlap) / (chunk_size - overlap)))] chunks when
    [n > 0] and none when [n = 0]; the count is the rounded-up quotient
    itself as soon as [n > overlap], and it is one when
    [1 <= n <= overlap]. *)
Theorem chunk_count_amended (conversation : Conversation) (chunk_size overlap : Z) :
  (0 < overlap < chunk_size)%Z ->
  exists chunks,
    chunk_conversation conversation chunk_size overlap = Ok chunks /\
    Z.of_nat (length chunks)
    = (if (Z.of_nat (length (conv_messages conversation)) =? 0)%Z then 0%Z
       else Z.max 1 (ceil_div (Z.of_nat (length (conv_messages conversation)) - overlap)
                              (chunk_size - overlap))) /\
    ((overlap < Z.of_nat (length (conv_messages conversation)))%Z ->
     Z.of_nat (length chunks)
     = ceil_div (Z.of_nat (length (conv_messages conversation)) - overlap)
                (chunk_size - overlap)) /\
    ((0 < Z.of_nat (length (conv_messages conversation)) <= overlap)%Z ->
     length chunks = 1%nat).
Proof.
  intros [Hpos Hlt].
  eexists. split; [apply chunk_conversation_windows; lia|].
  rewrite length_map, length_seq. unfold chunk_count.
  set (n := Z.of_nat (length (conv_messages conversation))).
  pose proof (ceil_div_bounds (n - overlap) (chunk_size - overlap) ltac:(lia)) as Hc.
  destruct (Z.eqb_spec n 0) as [Hz|Hnz].
  - repeat split; [lia | lia].
  - repeat split; [lia | intros; nia | intros; nia].
Qed.

Lemma chunk_count_amended_witness :
  exists chunks,
    chunk_conversation (sample_conversation 5) 3 1 = Ok chunks /\
    Z.of_nat (length chunks) = 2%Z.
Proof.
  destruct (chunk_count_amended (sample_conversation 5) 3 1 ltac:(lia))
    as (chunks & Hrun & Hlen & _).
  exists chunks. split; [exact Hrun | exact Hlen].
Defined.

(** C3: for every conversation with [n >= 1] messages and
    [0 < overlap < chunk_size], the [j]-th chunk of [chunk_conversation]
    has [message_start_idx = j * (chunk_size - overlap)] and
    [message_end_idx = min (message_start_idx + chunk_size) n]; for
    [n = 5], [chunk_size = 3], [overlap = 1] the ranges are exactly
    [0,3) and [2,5). *)
Theorem chunk_window_ranges (conversation : Conversation) (chunk_size overlap : Z) :
  (0 < overlap < chunk_size)%Z ->
  (1 <= length (conv_messages conversation))%nat ->
  exists chunks,
    chunk_conversation conversation chunk_size overlap = Ok chunks /\
    (forall (j : nat) (c : Chunk),
       chunks !! j = Some c ->
       message_start_idx c = (Z.of_nat j * (chunk_size - overlap))%Z /\
       message_end_idx c
       = Z.min (message_start_idx c + chunk_size)
               (Z.of_nat (length (conv_messages conversation)))) /\
    (length (conv_messages conversation) = 5%nat ->
     chunk_size = 3%Z -> overlap = 1%Z ->
     map chunk_range chunks = [(0, 3); (2, 5)]%Z).
Proof.
  intros [Hpos Hlt] Hn.
  eexists. split; [apply chunk_conversation_windows; lia|]. split.
  - intros j c Hj.
    change (@map nat Chunk) with (@fmap list _ nat Chunk) in Hj.
    rewrite list_lookup_fmap in Hj.
    destruct (seq 0 _ !! j) as [k|] eqn:Hk; [|done].
    apply lookup_seq in Hk as [-> _].
    injection Hj as <-. by cbn.
  - intros Hfive -> ->. rewrite Hfive.
    change (chunk_count (Z.of_nat 5) 3 1) with 2%nat.
    cbn [seq map]. unfold chunk_range, nth_chunk.
    cbn [message_start_idx message_end_idx]. by rewrite Hfive.
Qed.

Lemma chunk_window_ranges_witness :
  exists chunks,
    chunk_conversation (sample_conversation 5) 3 1 = Ok chunks /\
    map chunk_range chunks = [(0, 3); (2, 5)]%Z.
Proof.
  destruct (chunk_window_ranges (sample_conversation 5) 3 1 ltac:(lia)
              ltac:(vm_compute; lia))
    as (chunks & Hrun & _ & Hfive).
  exists chunks. split; [exact Hrun | by apply Hfive].
Defined.

(** X6: with [overlap > chunk_size] the stride is negative, the range is
    empty, and [chunk_conversation] returns the empty list, whatever the
    messages: no chunk and no error. *)
Lemma chunk_negative_stride_empty (conversation : Conversation)
    (chunk_size overlap : Z) :
  (chunk_size < overlap)%Z ->
  chunk_conversation conversation chunk_size overlap = Ok [].
Proof.
  intros Hlt. unfold chunk_conversation, Py.range, Py.range_len.
  destruct (Z.eqb_spec (chunk_size - overlap) 0); [lia|].
  destruct (Z.ltb_spec 0 (chunk_size - overlap)); [lia|].
  destruct (Z.ltb_spec (Z.of_nat (length (conv_messages conversation))) 0); [lia|].
  reflexivity.
Qed.

(** C10: with [overlap = chunk_size] the window stride is zero and
    [chunk_conversation] raises ([ValueError] from [range]) for every
    conversation, also one without messages; no check of the parameters
    comes before it. *)
Theorem chunk_zero_stride_raises (conversation : Conversation) (chunk_size : Z) :
  chunk_conversation conversation chunk_size chunk_size = Raise ValueError.
Proof.
  unfold chunk_conversation. by rewrite Z.sub_diag, range_zero_step.
Qed.

(** ** The importer *)

Lemma dict_get_absent (d : list (string * json)) (key : string) (default : json) :
  dict_has d key = false -> dict_get d key default = default.
Proof.
  induction d as [|[k v] d IH]; [done|].
  cbn. destruct (String.eqb k key); [done|]. exact IH.
Qed.

Lemma raw_role_unknown (d : list (string * json)) :
  dict_has d "role" = false -> dict_has d "sender" = false ->
  raw_role d = JStr "unknown".
Proof. intros Hr Hs. unfold raw_role. by rewrite !dict_get_absent. Qed.

Lemma normalize_message_role (msg : json) (m : NormalizedMessage) :
  normalize_message msg = Ok m -> role_passed_through msg m.
Proof.
  unfold normalize_message. intros Hm.
  destruct msg as [| | | |?|d]; try discriminate Hm.
  exists d. split; [done|].
  cbn in Hm.
  destruct (match dict_get d "content" (dict_get d "text" (JStr "")) with
            | JArr blocks =>
                joined ← join_lines (text_parts blocks []); Ok (JStr joined)
            | _ => Ok (dict_get d "content" (dict_get d "text" (JStr "")))
            end) as [c'|e]; [|discriminate Hm].
  cbn in Hm. by injection Hm as <-.
Qed.

Lemma normalize_messages_roles (msgs : list json)
    (normalized out : list NormalizedMessage) :
  normalize_messages msgs normalized = Ok out ->
  exists new, out = normalized ++ new /\ Forall2 role_passed_through msgs new.
Proof.
  revert normalized. induction msgs as [|msg rest IH]; intros normalized Hrun.
  - injection Hrun as <-. exists []. by rewrite app_nil_r.
  - cbn in Hrun.
    destruct (normalize_message msg) as [m|e] eqn:Hm; [|discriminate Hrun].
    cbn in Hrun. apply IH in Hrun as (new & -> & Hall).
    exists (m :: new). rewrite <- app_assoc. split; [done|].
    constructor; [by apply normalize_message_role | done].
Qed.

Section ImporterProps.
Context {CK : Clock}.

Lemma normalize_conversation_roles (idx : nat) (convo : json)
    (c : NormalizedConversation) :
  normalize_conversation idx convo = Ok c -> roles_passed_through convo c.
Proof.
  unfold normalize_conversation. intros Hc.
  destruct convo as [| | | |?|d]; try discriminate Hc.
  cbn in Hc.
  destruct (iterate (dict_get d "messages" (dict_get d "chat_messages" (JArr []))))
    as [msgs|e] eqn:Hit; [|discriminate Hc].
  cbn in Hc.
  destruct (normalize_messages msgs []) as [out|e] eqn:Hn; [|discriminate Hc].
  cbn in Hc. injection Hc as <-.
  apply normalize_messages_roles in Hn as (new & -> & Hall).
  exists d, msgs. by repeat split.
Qed.

Lemma normalize_loop_roles (idx : nat) (raw : list json)
    (normalized out : list NormalizedConversation) :
  normalize_loop idx raw normalized = Ok out ->
  exists new, out = normalized ++ new /\ Forall2 roles_passed_through raw new.
Proof.
  revert idx normalized. induction raw as [|convo rest IH]; intros idx normalized Hrun.
  - injection Hrun as <-. exists []. by rewrite app_nil_r.
  - cbn in Hrun.
    destruct (normalize_conversation idx convo) as [c|e] eqn:Hc; [|discriminate Hrun].
    cbn in Hrun. apply IH in Hrun as (new & -> & Hall).
    exists (c :: new). rewrite <- app_assoc. split; [done|].
    constructor; [by eapply normalize_conversation_roles | done].
Qed.

Lemma import_loop_spec (files : list (string * result json))
    (all_conversations : list NormalizedConversation)
    (errors : list (string * exn)) :
  import_loop files all_conversations errors
  = (all_conversations ++ concat (map file_conversations files),
     errors ++ concat (map file_errors files)).
Proof.
  revert all_conversations errors.
  induction files as [|[json_file loaded] rest IH]; intros acc errs.
  - cbn. by rewrite !app_nil_r.
  - cbn [import_loop map concat]. unfold file_conversations at 1, file_errors at 1.
    cbn [fst snd].
    destruct (import_from_json_export loaded) as [convos|e];
      rewrite IH; cbn [app]; by rewrite ?app_nil_r, <- ?app_assoc.
Qed.

End ImporterProps.

(** C4 (as stated): every normalized message's role is one of user,
    assistant, system, unknown.  This fails on the spec's own
    normalization scenario: the sender ["human"] is kept as the role. *)
Lemma role_set_counterexample :
  ~ (forall (clock : Clock) (raw : json) (convs : list NormalizedConversation),
       _normalize_conversations raw = Ok convs ->
       forall c m, In c convs -> In m (n_messages c) -> In (n_role m) known_roles).
Proof.
  intros Hclaim.
  pose (m := mkNormalizedMessage (JStr "human") (JStr "hi") (JStr "")).
  pose (c := mkNormalizedConversation (JStr "conv_0_1705314600.0")
               (JStr "2024-01-15T10:30:00") (JStr "Chat A") [m]).
  specialize (Hclaim fixed_clock (JArr [chat_a]) [c] eq_refl c m
                (or_introl eq_refl) (or_introl eq_refl)).
  cbn in Hclaim.
  repeat (destruct Hclaim as [Hclaim|Hclaim]; [discriminate Hclaim|]).
  exact Hclaim.
Qed.

(** C4 (amended): for every raw conversation list the normalizer accepts,
    every normalized message's role is the value the raw message has
    under [role], else under [sender], else ["unknown"]; the value is
    passed through as it is, and ["unknown"] is what a message with
    neither key gets. *)
Theorem normalized_role_passed_through (clock : Clock) (raw_conversations : json)
    (convs : list NormalizedConversation) :
  _normalize_conversations raw_conversations = Ok convs ->
  exists raw,
    iterate raw_conversations = Ok raw /\
    Forall2 roles_passed_through raw convs /\
    (forall msg m d,
       role_passed_through msg m -> msg = JObj d ->
       dict_has d "role" = false -> dict_has d "sender" = false ->
       n_role m = JStr "unknown").
Proof.
  unfold _normalize_conversations. intros Hrun.
  destruct (iterate raw_conversations) as [raw|e]; [|discriminate Hrun].
  cbn in Hrun. apply normalize_loop_roles in Hrun as (new & -> & Hall).
  exists raw. repeat split; [done|].
  intros msg m d (d' & -> & ->) [= ->] Hr Hs. by apply raw_role_unknown.
Qed.

Lemma normalized_role_passed_through_witness :
  exists raw,
    iterate (JArr [chat_a]) = Ok raw /\
    Forall2 roles_passed_through raw
      [mkNormalizedConversation (JStr "conv_0_1705314600.0")
         (JStr "2024-01-15T10:30:00") (JStr "Chat A")
         [mkNormalizedMessage (JStr "human") (JStr "hi") (JStr "")]].
Proof.
  destruct (normalized_role_passed_through fixed_clock (JArr [chat_a]) _ eq_refl)
    as (raw & Hit & Hall & _).
  exists raw. split; [exact Hit | exact Hall].
Defined.

(** C8: a directory import returns exactly the conversations of the
    files that import without raising, in the order of the files; a file
    that raises while it is parsed or normalized contributes nothing but
    one logged error, and the files before and after it are imported as
    if it were not there. *)
Theorem directory_import_skips_bad_files (clock : Clock)
    (files : list (string * result json)) :
  import_from_directory files
  = (concat (map file_conversations files), concat (map file_errors files)) /\
  (forall before bad after e,
     files = before ++ bad :: after ->
     import_from_json_export (snd bad) = Raise e ->
     fst (import_from_directory files)
     = fst (import_from_directory (before ++ after)) /\
     In (fst bad, e) (snd (import_from_directory files))).
Proof.
  unfold import_from_directory. rewrite import_loop_spec. split; [done|].
  intros before bad after e -> Hbad. rewrite import_loop_spec.
  cbn [fst snd app]. rewrite !map_app, !concat_app. cbn [map concat].
  unfold file_conversations at 2, file_errors at 2. rewrite Hbad.
  split; [done|].
  apply in_or_app. right. by left.
Qed.

Lemma directory_import_skips_bad_files_witness :
  fst (import_from_directory (CK := fixed_clock) scenario_files)
  = fst (import_from_directory (CK := fixed_clock)
           [("a.json", Ok (JArr [chat_a])); ("c.json", Ok chat_a);
            ("d.json", Ok wrapped_export)]) /\
  In ("b.json"%string, JSONDecodeError)
     (snd (import_from_directory (CK := fixed_clock) scenario_files)).
Proof.
  exact (proj2 (directory_import_skips_bad_files fixed_clock scenario_files)
           [("a.json"%string, Ok (JArr [chat_a]))]
           ("b.json"%string, Raise JSONDecodeError)
           [("c.json"%string, Ok chat_a); ("d.json"%string, Ok wrapped_export)]
           JSONDecodeError eq_refl eq_refl).
Defined.

Example scenario_import_count :
  length (fst (import_from_directory (CK := fixed_clock) scenario_files)) = 4%nat.
Proof. reflexivity. Qed.

(** ** Slices of a batch loop *)

Lemma slice_clamp_hi {A} (l : list A) (lo hi : Z) :
  (0 <= hi)%Z ->
  Py.slice l lo (Z.min hi (Z.of_nat (length l))) = Py.slice l lo hi.
Proof.
  intros Hhi. unfold Py.slice, Py.slice_bound.
  destruct (Z.ltb_spec (Z.min hi (Z.of_nat (length l))) 0); [lia|].
  destruct (Z.ltb_spec hi 0); [lia|].
  do 2 f_equal; lia.
Qed.

Lemma slice_app {A} (l : list A) (a b c : Z) :
  (0 <= a <= b)%Z -> (b <= c)%Z ->
  Py.slice l a b ++ Py.slice l b c = Py.slice l a c.
Proof.
  intros Hab Hbc. unfold Py.slice, Py.slice_bound.
  destruct (Z.ltb_spec a 0); [lia|].
  destruct (Z.ltb_spec b 0); [lia|].
  destruct (Z.ltb_spec c 0); [lia|].
  set (n := Z.of_nat (length l)).
  replace (Z.to_nat (Z.min b n)) with
    (Z.to_nat (Z.min a n) + Z.to_nat (Z.min b n - Z.min a n))%nat by lia.
  rewrite <- drop_drop, take_take_drop. f_equal. lia.
Qed.

Lemma slice_all {A} (l : list A) (hi : Z) :
  (Z.of_nat (length l) <= hi)%Z -> Py.slice l 0 hi = l.
Proof.
  intros Hhi. unfold Py.slice, Py.slice_bound.
  destruct (Z.ltb_spec hi 0); [lia|]. cbn [Z.ltb Z.compare].
  replace (Z.min 0 (Z.of_nat (length l))) with 0%Z by lia.
  cbn [Z.to_nat drop]. apply take_ge. lia.
Qed.

(** The batches of a loop with a positive batch size, one after the other,
    are the whole list. *)
Lemma batches_upto {A} (l : list A) (batch_size : Z) (m k : nat) :
  (0 < batch_size)%Z ->
  concat (map (fun j : nat =>
                 Py.slice l (0 + Z.of_nat j * batch_size)
                   (Z.min (0 + Z.of_nat j * batch_size + batch_size)
                          (Z.of_nat (length l))))
              (seq k m))
  = Py.slice l (Z.of_nat k * batch_size) (Z.of_nat (k + m) * batch_size).
Proof.
  intros Hb. revert k. induction m as [|m IH]; intros k.
  - cbn [seq map concat]. rewrite Nat.add_0_r.
    unfold Py.slice. by rewrite Z.sub_diag.
  - cbn [seq map concat]. rewrite IH, Z.add_0_l.
    rewrite slice_clamp_hi by nia.
    replace (Z.of_nat k * batch_size + batch_size)%Z
      with (Z.of_nat (S k) * batch_size)%Z by lia.
    rewrite slice_app by nia. f_equal. lia.
Qed.

Lemma batches_cover {A} (l : list A) (batch_size : Z) (starts : list Z) :
  (0 < batch_size)%Z ->
  Py.range 0 (Z.of_nat (length l)) batch_size = Ok starts ->
  concat (map (fun i => Py.slice l i (Z.min (i + batch_size) (Z.of_nat (length l))))
              starts) = l.
Proof.
  intros Hb Hr.
  destruct (decide (length l = 0%nat)) as [Hz|Hnz].
  - rewrite Hz, range_empty in Hr by lia. injection Hr as <-.
    by destruct l.
  - rewrite range_from_zero in Hr by lia. injection Hr as <-.
    rewrite map_map, batches_upto by done.
    cbn [Z.of_nat Z.mul]. apply slice_all.
    pose proof (Z.div_mod (Z.of_nat (length l) - 1) batch_size ltac:(lia)).
    pose proof (Z.mod_pos_bound (Z.of_nat (length l) - 1) batch_size Hb).
    assert (0 <= (Z.of_nat (length l) - 1) / batch_size)%Z
      by (apply Z.div_pos; lia).
    rewrite Nat.add_0_l, Z2Nat.id by lia. nia.
Qed.

(** ** The store *)

Section StoreProps.
Context {EM : EmbeddingModel} {MT : Metric Embedding} {JC : JsonCodec}.

Lemma upsert_all_app (col : gmap string StoredRecord)
    (r1 r2 : list (string * StoredRecord)) :
  upsert_all col (r1 ++ r2) = upsert_all (upsert_all col r1) r2.
Proof. apply foldl_app. Qed.

Lemma upsert_all_union (col : gmap string StoredRecord)
    (recs : list (string * StoredRecord)) :
  upsert_all col recs = list_to_map (reverse recs) ∪ col.
Proof.
  revert col. induction recs as [|[k v] recs IH]; intros col.
  - cbn. by rewrite (left_id_L ∅ (∪)).
  - cbn [upsert_all foldl fst snd]. fold (upsert_all (<[k:=v]> col) recs).
    rewrite IH, reverse_cons, list_to_map_app.
    cbn [list_to_map foldr uncurry]. 
    rewrite <- (assoc_L (∪)). f_equal.
    rewrite insert_empty. by rewrite <- insert_union_singleton_l.
Qed.

(** Writing the same pairs a second time changes nothing. *)
Lemma upsert_all_idemp (col : gmap string StoredRecord)
    (recs : list (string * StoredRecord)) :
  upsert_all (upsert_all col recs) recs = upsert_all col recs.
Proof.
  rewrite !upsert_all_union, (assoc_L (∪)). f_equal. apply (idemp_L (∪)).
Qed.

Lemma upsert_all_dom (col : gmap string StoredRecord)
    (recs : list (string * StoredRecord)) :
  dom (upsert_all col recs) = dom col ∪ list_to_set (map fst recs).
Proof.
  revert col. induction recs as [|[k v] recs IH]; intros col.
  - cbn. by rewrite (right_id_L ∅ (∪)).
  - cbn [upsert_all foldl fst snd]. fold (upsert_all (<[k:=v]> col) recs).
    rewrite IH, dom_insert_L. cbn [map fst list_to_set].
    by rewrite (assoc_L (∪)), (comm_L (∪) (dom col) {[k]}).
Qed.

(** With distinct ids, every pair written is there afterwards. *)
Lemma upsert_all_lookup (col : gmap string StoredRecord)
    (recs : list (string * StoredRecord)) (k : string) (v : StoredRecord) :
  NoDup (map fst recs) -> In (k, v) recs -> upsert_all col recs !! k = Some v.
Proof.
  rewrite upsert_all_union. intros Hnd Hin.
  apply lookup_union_Some_l, elem_of_list_to_map.
  - change (@map (string * StoredRecord) string fst)
      with (@fmap list _ (string * StoredRecord) string fst) in Hnd.
    by rewrite fmap_reverse, reverse_Permutation.
  - by rewrite elem_of_reverse, list_elem_of_In.
Qed.

Lemma collection_add_upserts (col : gmap string StoredRecord)
    (embeddings : list Embedding) (documents ids : list string)
    (metadatas : list Metadata) :
  collection_add col embeddings documents ids metadatas
  = upsert_all col (zip_records embeddings documents ids metadatas).
Proof.
  revert col embeddings documents metadatas.
  induction ids as [|i ids IH]; intros col [|e es] [|d ds] [|m ms]; try done.
  cbn [collection_add zip_records]. by rewrite IH.
Qed.

Lemma add_batch_upserts (texts ids : list string) (metadatas : list Metadata)
    (batch_size : Z) (col : gmap string StoredRecord) (i : Z) :
  add_batch texts ids metadatas batch_size col i
  = upsert_all col (batch_records texts ids metadatas batch_size i).
Proof. apply collection_add_upserts. Qed.

Lemma batch_loop_upserts (texts ids : list string) (metadatas : list Metadata)
    (batch_size : Z) (starts : list Z) (col : gmap string StoredRecord) :
  foldl (add_batch texts ids metadatas batch_size) col starts
  = upsert_all col
      (concat (map (batch_records texts ids metadatas batch_size) starts)).
Proof.
  revert col. induction starts as [|i starts IH]; intros col; [done|].
  cbn [foldl map concat]. by rewrite IH, add_batch_upserts, upsert_all_app.
Qed.

Lemma zip_records_chunks (chunks : list Chunk) :
  zip_records (map encode (map text chunks)) (map text chunks)
              (map chunk_id chunks) (map chunk_metadata chunks)
  = map chunk_record chunks.
Proof.
  induction chunks as [|c chunks IH]; [done|].
  cbn [map zip_records]. by rewrite IH.
Qed.

Lemma batch_records_chunks (chunks : list Chunk) (batch_size i : Z) :
  batch_records (map text chunks) (map chunk_id chunks)
                (map chunk_metadata chunks) batch_size i
  = map chunk_record
      (Py.slice chunks i (Z.min (i + batch_size) (Z.of_nat (length chunks)))).
Proof.
  unfold batch_records. rewrite length_map, !slice_map.
  apply zip_records_chunks.
Qed.

End StoreProps.

Example text_codec_round_trip :
  parse_messages (write_messages (sample_messages 3)) = Ok (sample_messages 3).
Proof. vm_compute. reflexivity. Qed.

(** ** add_conversations, get_stats, reset *)

Lemma chunk_all_ok (conversations : list Conversation) (all_chunks : list Chunk) :
  chunk_all conversations all_chunks
  = Ok (all_chunks ++ conversation_chunks conversations).
Proof.
  revert all_chunks.
  induction conversations as [|c rest IH]; intros all_chunks.
  - cbn. by rewrite app_nil_r.
  - cbn [chunk_all].
    rewrite chunk_conversation_windows by (unfold default_overlap, default_chunk_size; lia).
    cbn [mbind result_bind Py.bind]. rewrite IH.
    unfold conversation_chunks. cbn [map concat]. by rewrite app_assoc.
Qed.

Section ImportProps.
Context {EM : EmbeddingModel} {MT : Metric Embedding} {JC : JsonCodec}.

Lemma collection_set_collection (s : Store) (col : gmap string StoredRecord) :
  collection (set_collection s col) = col.
Proof. unfold collection, set_collection. cbn. by rewrite lookup_insert_eq. Qed.


(** What one call writes depends on the conversations and the batch size
    only, not on the store. *)
Lemma add_conversations_upserts (conversations : list Conversation)
    (batch_size : Z) (s s1 : Store) (n1 : Z) :
  add_conversations s conversations batch_size = Ok (s1, n1) ->
  exists recs,
    s1 = set_collection s (upsert_all (collection s) recs) /\
    forall s',
      add_conversations s' conversations batch_size
      = Ok (set_collection s' (upsert_all (collection s') recs), n1).
Proof.
  unfold add_conversations. rewrite chunk_all_ok. cbn [mbind result_bind Py.bind app].
  destruct (Py.range 0 _ batch_size) as [starts|e]; [|discriminate].
  cbn [Py.bind]. intros [= <- <-].
  eexists. split; [by rewrite batch_loop_upserts|].
  intros s'. cbn [mbind result_bind Py.bind]. by rewrite batch_loop_upserts.
Qed.

(** With a positive batch size, one call writes the record of every
    chunk, in order, and returns their number. *)
Lemma add_conversations_writes (s : Store) (conversations : list Conversation)
    (batch_size : Z) :
  (0 < batch_size)%Z ->
  add_conversations s conversations batch_size
  = Ok (set_collection s
          (upsert_all (collection s)
             (map chunk_record (conversation_chunks conversations))),
        Z.of_nat (length (conversation_chunks conversations))).
Proof.
  intros Hb. unfold add_conversations.
  rewrite chunk_all_ok. cbn [mbind result_bind Py.bind app].
  set (chunks := conversation_chunks conversations).
  destruct (Py.range 0 (Z.of_nat (length (map text chunks))) batch_size)
    as [starts|e] eqn:Hr.
  - cbn [mbind result_bind Py.bind]. rewrite batch_loop_upserts.
    rewrite length_map in Hr.
    assert (concat (map (batch_records (map text chunks) (map chunk_id chunks)
                           (map chunk_metadata chunks) batch_size) starts)
            = map chunk_record chunks) as ->; [|done].
    rewrite (map_ext _ _ (batch_records_chunks chunks batch_size)).
    rewrite <- (map_map
                  (fun i => Py.slice chunks i
                              (Z.min (i + batch_size) (Z.of_nat (length chunks))))
                  (map chunk_record)).
    rewrite <- concat_map. f_equal. by apply batches_cover.
  - unfold Py.range in Hr. destruct (Z.eqb_spec batch_size 0); [lia|discriminate].
Qed.

Lemma add_conversations_keeps_handle (s s1 : Store)
    (conversations : list Conversation) (batch_size n1 : Z) :
  add_conversations s conversations batch_size = Ok (s1, n1) ->
  has_collection s1 /\ collection_name s1 = collection_name s /\
  db_path s1 = db_path s.
Proof.
  intros Hrun. apply add_conversations_upserts in Hrun as (recs & -> & _).
  unfold has_collection, set_collection. cbn.
  by rewrite lookup_insert_eq.
Qed.

Lemma init_has_collection (persisted : gmap string (gmap string StoredRecord))
    (path name : string) :
  has_collection (init persisted path name).
Proof.
  unfold has_collection, init, get_or_create_collection. cbn.
  destruct (persisted !! name) eqn:Hp; [by rewrite Hp|].
  by rewrite lookup_insert_eq.
Qed.

Lemma add_many_keeps_handle (calls : list (list Conversation * Z)) (s s1 : Store) :
  has_collection s -> add_many s calls = Ok s1 ->
  has_collection s1 /\ collection_name s1 = collection_name s /\
  db_path s1 = db_path s.
Proof.
  revert s. induction calls as [|[conversations batch_size] rest IH]; intros s Hs Hrun.
  - by injection Hrun as <-.
  - cbn [add_many] in Hrun.
    destruct (add_conversations s conversations batch_size) as [[s' n']|e] eqn:Hadd;
      [|discriminate Hrun].
    cbn in Hrun.
    apply add_conversations_keeps_handle in Hadd as (Hs' & Hname & Hpath).
    apply IH in Hrun as (? & ? & ?); [|done].
    repeat split; [done|congruence|congruence].
Qed.

(** A sequence of calls with non-zero batch sizes returns. *)
Lemma add_many_returns (calls : list (list Conversation * Z)) (s : Store) :
  Forall (fun call => snd call <> 0%Z) calls ->
  exists s1, add_many s calls = Ok s1.
Proof.
  revert s. induction calls as [|[conversations batch_size] rest IH]; intros s Hall.
  - by exists s.
  - apply Forall_cons in Hall as [Hb Hall]. cbn [snd] in Hb. cbn [add_many].
    unfold add_conversations. rewrite chunk_all_ok.
    cbn [mbind result_bind Py.bind]. unfold Py.range.
    destruct (Z.eqb_spec batch_size 0); [done|].
    cbn [Py.bind fst]. by apply IH.
Qed.

Lemma reset_of_handle (s : Store) :
  has_collection s ->
  exists s2,
    reset s = Ok s2 /\ collection s2 = ∅ /\
    collection_name s2 = collection_name s /\ db_path s2 = db_path s /\
    client s2 !! collection_name s = Some ∅.
Proof.
  intros [col Hcol]. unfold reset, delete_collection. rewrite Hcol.
  cbn [mbind result_bind Py.bind]. eexists. split; [done|].
  unfold collection, get_or_create_collection. cbn.
  rewrite lookup_delete_eq, lookup_insert_eq. by cbn.
Qed.

End ImportProps.

(** C2: importing the same conversations a second time leaves the store
    as the first import left it, so [get_stats] reports the same
    [total_chunks]: every chunk is written under the id
    [{conversation_id}_chunk_{chunk_index}], and a write to an id that is
    there replaces the record instead of adding one. *)
Theorem reimport_keeps_count {EM : EmbeddingModel} {MT : Metric Embedding} {JC : JsonCodec}
    (s s1 : Store) (conversations : list Conversation) (batch_size n1 : Z) :
  add_conversations s conversations batch_size = Ok (s1, n1) ->
  exists s2 n2,
    add_conversations s1 conversations batch_size = Ok (s2, n2) /\
    total_chunks (get_stats s2) = total_chunks (get_stats s1) /\
    collection s2 = collection s1 /\
    n2 = n1 /\
    ((0 < batch_size)%Z ->
     dom (collection s1)
     = dom (collection s)
       ∪ list_to_set (map chunk_id (conversation_chunks conversations))).
Proof.
  intros Hrun.
  pose proof Hrun as (recs & Hs1 & Hany)%add_conversations_upserts.
  eexists _, _. split; [apply Hany|].
  assert (collection (set_collection s1 (upsert_all (collection s1) recs))
          = collection s1) as Hsame.
  { rewrite collection_set_collection, Hs1, collection_set_collection.
    apply upsert_all_idemp. }
  repeat split.
  - unfold get_stats. cbn. by rewrite Hsame.
  - exact Hsame.
  - intros Hb. rewrite add_conversations_writes in Hrun by done.
    injection Hrun as <- _.
    rewrite collection_set_collection, upsert_all_dom, map_map. done.
Qed.

Lemma reimport_keeps_count_witness :
  exists s1 s2 n,
    add_conversations (EM := length_embedding) (JC := text_codec)
      fresh_store [sample_conversation 5] 100 = Ok (s1, n) /\
    add_conversations (EM := length_embedding) (JC := text_codec)
      s1 [sample_conversation 5] 100 = Ok (s2, n) /\
    total_chunks (get_stats s2) = total_chunks (get_stats s1).
Proof.
  destruct (add_conversations (EM := length_embedding) (JC := text_codec)
              fresh_store [sample_conversation 5] 100) as [[s1 n]|e] eqn:Hrun;
    [|vm_compute in Hrun; discriminate Hrun].
  destruct (reimport_keeps_count (EM := length_embedding) (MT := abs_metric) _ _ _ _ _ Hrun)
    as (s2 & n2 & Hagain & Hcount & _ & -> & _).
  exists s1, s2, n. repeat split; [exact Hagain | exact Hcount].
Defined.

(** C7: after any sequence of [add_conversations] calls on a store,
    [reset] returns, the collection is there again under the same name
    and it is empty: [get_stats] reports [total_chunks = 0]. *)
Theorem reset_empties_collection {EM : EmbeddingModel} {MT : Metric Embedding} {JC : JsonCodec}
    (persisted : gmap string (gmap string StoredRecord)) (path name : string)
    (calls : list (list Conversation * Z)) (s1 : Store) :
  add_many (init persisted path name) calls = Ok s1 ->
  exists s2,
    reset s1 = Ok s2 /\
    total_chunks (get_stats s2) = 0%Z /\
    collection s2 = ∅ /\
    stats_collection_name (get_stats s2) = name /\
    client s2 !! name = Some ∅.
Proof.
  intros Hrun.
  apply add_many_keeps_handle in Hrun as (Hs1 & Hname & _);
    [|apply init_has_collection].
  cbn in Hname.
  destruct (reset_of_handle s1 Hs1) as (s2 & Hreset & Hempty & Hname2 & _ & Hthere).
  exists s2. split; [done|]. unfold get_stats. cbn.
  rewrite Hempty. repeat split; [congruence | congruence].
Qed.

Lemma reset_empties_collection_witness :
  exists s1 s2,
    add_many (EM := length_embedding) (JC := text_codec)
      fresh_store [([sample_conversation 21], 100%Z)] = Ok s1 /\
    total_chunks (get_stats s1) = 10%Z /\
    reset s1 = Ok s2 /\
    total_chunks (get_stats s2) = 0%Z.
Proof.
  destruct (add_many (EM := length_embedding) (JC := text_codec)
              fresh_store [([sample_conversation 21], 100%Z)]) as [s1|e] eqn:Hrun;
    [|vm_compute in Hrun; discriminate Hrun].
  destruct (reset_empties_collection (EM := length_embedding) (MT := abs_metric) _ _ _ _ _ Hrun)
    as (s2 & Hreset & Hzero & _).
  exists s1, s2. repeat split; [|exact Hreset|exact Hzero].
  vm_compute in Hrun. injection Hrun as <-. vm_compute. reflexivity.
Defined.

(** ** Chunk ids *)

Lemma list_of_append (s1 s2 : string) :
  list_ascii_of_string (s1 +:+ s2)
  = list_ascii_of_string s1 ++ list_ascii_of_string s2.
Proof.
  induction s1 as [|c s1 IH]; [done|].
  change (String c s1 +:+ s2) with (String c (s1 +:+ s2)).
  cbn [list_ascii_of_string app]. by rewrite IH.
Qed.

Lemma all_digits_list (s : string) :
  Py.all_digits s = true ->
  Forall (fun c => Py.is_digit c = true) (list_ascii_of_string s).
Proof.
  induction s as [|c s IH]; cbn; [constructor|].
  intros [Hc Hs]%andb_true_iff. constructor; [done | by apply IH].
Qed.

(** A run of digits after a character that is no digit is determined by
    the whole. *)
Lemma digit_suffix_unique (c : ascii) (r1 r2 l1 l2 : list ascii) :
  Py.is_digit c = false ->
  Forall (fun x => Py.is_digit x = true) l1 ->
  Forall (fun x => Py.is_digit x = true) l2 ->
  r1 ++ c :: l1 = r2 ++ c :: l2 -> r1 = r2 /\ l1 = l2.
Proof.
  intros Hc Hl1 Hl2. revert r2.
  induction r1 as [|x r1 IH]; intros [|y r2] Heq; cbn in Heq.
  - by injection Heq.
  - injection Heq as _ ->.
    apply Forall_app in Hl1 as [_ Hbad]. apply Forall_cons in Hbad as [Hbad _].
    congruence.
  - injection Heq as _ <-.
    apply Forall_app in Hl2 as [_ Hbad]. apply Forall_cons in Hbad as [Hbad _].
    congruence.
  - injection Heq as -> Heq. by destruct (IH _ Heq) as [-> ->].
Qed.

Lemma list_ascii_inj (s1 s2 : string) :
  list_ascii_of_string s1 = list_ascii_of_string s2 -> s1 = s2.
Proof.
  intros Heq.
  by rewrite <- (string_of_list_ascii_of_string s1), Heq,
             string_of_list_ascii_of_string.
Qed.

Lemma chunk_marker_split (a b d1 d2 : string) :
  Py.all_digits d1 = true -> Py.all_digits d2 = true ->
  a +:+ "_chunk_" +:+ d1 = b +:+ "_chunk_" +:+ d2 -> a = b /\ d1 = d2.
Proof.
  intros Hd1 Hd2 Heq. apply (f_equal list_ascii_of_string) in Heq.
  rewrite !list_of_append in Heq.
  change (list_ascii_of_string "_chunk_")
    with (list_ascii_of_string "_chunk" ++ ["_"%char]) in Heq.
  rewrite <- !(app_assoc (list_ascii_of_string "_chunk")) in Heq.
  rewrite !(app_assoc _ (list_ascii_of_string "_chunk")) in Heq.
  cbn [app] in Heq.
  apply digit_suffix_unique in Heq as [Hpre Hdig];
    [|done|by apply all_digits_list..].
  apply app_inv_tail in Hpre.
  split; by apply list_ascii_inj.
Qed.

Lemma pretty_N_go_digits (x : N) (s : string) :
  Py.all_digits s = true -> Py.all_digits (pretty_N_go x s) = true.
Proof.
  revert s. induction (N.lt_wf_0 x) as [x _ IH]; intros s Hs.
  destruct (decide (x = 0%N)) as [->|Hx]; [by rewrite pretty_N_go_0|].
  rewrite pretty_N_go_step by lia.
  apply IH; [apply N.div_lt; lia|].
  cbn [Py.all_digits]. rewrite Hs, andb_true_r.
  unfold pretty_N_char. by repeat case_match.
Qed.

Lemma str_int_digits (n : Z) : (0 <= n)%Z -> Py.all_digits (Py.str_int n) = true.
Proof.
  intros Hn. unfold Py.str_int, pretty, pretty_Z.
  destruct n as [|p|p]; [done| |lia].
  unfold pretty, pretty_positive, pretty, pretty_N.
  case_decide; [done|]. by apply pretty_N_go_digits.
Qed.

(** The id determines the conversation id and the chunk index. *)
Lemma chunk_id_inj (c1 c2 : Chunk) :
  (0 <= chunk_index c1)%Z -> (0 <= chunk_index c2)%Z ->
  chunk_id c1 = chunk_id c2 ->
  conversation_id c1 = conversation_id c2 /\ chunk_index c1 = chunk_index c2.
Proof.
  intros H1 H2 Heq. unfold chunk_id in Heq.
  apply chunk_marker_split in Heq as [Hc Hi]; [|by apply str_int_digits..].
  split; [done|]. by apply (inj pretty) in Hi.
Qed.

Lemma conversation_chunks_elem (conversations : list Conversation) (chunk : Chunk) :
  chunk ∈ conversation_chunks conversations ->
  exists c j,
    c ∈ conversations /\
    chunk = nth_chunk c default_chunk_size default_overlap j.
Proof.
  unfold conversation_chunks. intros Hin.
  apply list_elem_of_In, in_concat in Hin as (l & Hl & Hin).
  apply in_map_iff in Hl as (c & <- & Hc).
  apply in_map_iff in Hin as (j & <- & _).
  exists c, j. split; [by apply list_elem_of_In | done].
Qed.

(** Chunk id uniqueness: distinct conversation ids give distinct chunk
    ids within one import. *)
Lemma chunk_ids_unique (conversations : list Conversation) :
  NoDup (map conv_id conversations) ->
  NoDup (map chunk_id (conversation_chunks conversations)).
Proof.
  induction conversations as [|c rest IH]; intros Hnd; [constructor|].
  cbn [map] in Hnd. apply NoDup_cons in Hnd as [Hfresh Hnd].
  unfold conversation_chunks. cbn [map concat]. rewrite map_app.
  apply NoDup_app. split; [|split; [|by apply IH]].
  - rewrite map_map.
    change (NoDup ((fun j => chunk_id (nth_chunk c default_chunk_size default_overlap j))
                     <$> seq 0 (chunk_count (Z.of_nat (length (conv_messages c)))
                                            default_chunk_size default_overlap))).
    apply NoDup_fmap_2_strong; [|apply NoDup_seq].
    intros j1 j2 _ _ Heq.
    apply chunk_id_inj in Heq as [_ Heq]; cbn in *; lia.
  - intros i Hi Hi'.
    apply list_elem_of_In, in_map_iff in Hi as (c1 & <- & Hc1).
    apply in_map_iff in Hc1 as (j & <- & _).
    apply list_elem_of_In, in_map_iff in Hi' as (c2 & Heq & Hc2).
    apply list_elem_of_In, conversation_chunks_elem in Hc2 as (c' & j' & Hc' & ->).
    apply chunk_id_inj in Heq as [Heq _]; cbn in *; [|lia..].
    apply Hfresh. rewrite <- Heq.
    by apply list_elem_of_In, in_map, list_elem_of_In.
Qed.

(** ** search *)

Lemma index_head {A} (x : A) (l : list A) : index (x :: l) 0 = Ok x.
Proof. reflexivity. Qed.

Lemma index_map {A B} (f : A -> B) (l : list A) (i : nat) (x : A) :
  l !! i = Some x -> index (map f l) i = Ok (f x).
Proof.
  intros Hx. unfold index.
  change (@map A B f) with (@fmap list _ A B f).
  by rewrite list_lookup_fmap, Hx.
Qed.

Lemma StronglySorted_take {A} (R : A -> A -> Prop) (l : list A) (k : nat) :
  StronglySorted R l -> StronglySorted R (take k l).
Proof.
  intros Hs. revert k. induction Hs as [|x l Hs IH Hall]; intros [|k]; cbn;
    try constructor; [apply IH | by apply Forall_take].
Qed.

Lemma StronglySorted_lookup_le {A} (R : A -> A -> Prop) (l : list A)
    (i j : nat) (x y : A) :
  (forall a, R a a) -> StronglySorted R l -> (i <= j)%nat ->
  l !! i = Some x -> l !! j = Some y -> R x y.
Proof.
  intros Hrefl Hs. revert i j.
  induction Hs as [|a l Hs IH Hall]; intros i j Hij Hi Hj; [done|].
  destruct i as [|i], j as [|j]; cbn in Hi, Hj; try lia.
  - by injection Hi as <-; injection Hj as <-.
  - injection Hi as <-. rewrite Forall_forall in Hall.
    apply Hall. by eapply list_elem_of_lookup_2.
  - eapply IH; [|done|done]. lia.
Qed.

Section SearchProps.
Context {EM : EmbeddingModel} {MT : Metric Embedding} {JC : JsonCodec}.

Lemma insert_hit_Forall (P : Hit -> Prop) (h : Hit) (l : list Hit) :
  P h -> Forall P l -> Forall P (insert_hit h l).
Proof.
  intros Hh Hl. induction Hl as [|h' l Hh' Hl IH]; cbn.
  - by constructor.
  - destruct (Qle_bool (hit_distance h) (hit_distance h')); by repeat constructor.
Qed.

Lemma insert_hit_sorted (h : Hit) (l : list Hit) :
  StronglySorted closer l -> StronglySorted closer (insert_hit h l).
Proof.
  intros Hs. induction Hs as [|h' l Hs IH Hall]; cbn.
  - by repeat constructor.
  - destruct (Qle_bool (hit_distance h) (hit_distance h')) eqn:Hle.
    + apply Qle_bool_iff in Hle. constructor; [by constructor|].
      constructor; [done|].
      eapply Forall_impl; [exact Hall|]. intros x Hx. unfold closer in *.
      by eapply Qle_trans.
    + constructor; [done|]. apply insert_hit_Forall; [|done].
      unfold closer. apply Qlt_le_weak, Qnot_le_lt.
      intros Hq. apply Qle_bool_iff in Hq. congruence.
Qed.

Lemma sort_hits_sorted (l : list Hit) : StronglySorted closer (sort_hits l).
Proof.
  induction l as [|h l IH]; cbn; [constructor | by apply insert_hit_sorted].
Qed.

Lemma insert_hit_elem (x h : Hit) (l : list Hit) :
  x ∈ insert_hit h l -> x = h \/ x ∈ l.
Proof.
  induction l as [|h' l IH]; cbn.
  - intros ->%list_elem_of_singleton. by left.
  - destruct (Qle_bool (hit_distance h) (hit_distance h')).
    + intros [->|Hx]%elem_of_cons; [by left | by right].
    + intros [->|Hx]%elem_of_cons; [right; by left|].
      destruct (IH Hx) as [->|Hl]; [by left | right; by right].
Qed.

Lemma sort_hits_elem (x : Hit) (l : list Hit) : x ∈ sort_hits l -> x ∈ l.
Proof.
  induction l as [|h l IH]; cbn; [done|].
  intros [->|Hx]%insert_hit_elem; [by left | right; by apply IH].
Qed.

Lemma nearest_sorted (col : gmap string StoredRecord) (q : Embedding) (k : Z)
    (filter_dict : option (list (string * MetaValue))) :
  StronglySorted closer (nearest col q k filter_dict).
Proof. apply StronglySorted_take, sort_hits_sorted. Qed.

Lemma nearest_length (col : gmap string StoredRecord) (q : Embedding) (k : Z)
    (filter_dict : option (list (string * MetaValue))) :
  (length (nearest col q k filter_dict) <= Z.to_nat k)%nat.
Proof. unfold nearest. rewrite length_take. lia. Qed.

(** A hit is a record of the collection that passes the filter. *)
Lemma nearest_stored (col : gmap string StoredRecord) (q : Embedding) (k : Z)
    (filter_dict : option (list (string * MetaValue))) (h : Hit) :
  h ∈ nearest col q k filter_dict ->
  col !! hit_id h = Some (hit_record h) /\
  where_matches filter_dict (metadata (hit_record h)) = true /\
  hit_distance h = distance q (vector (hit_record h)).
Proof.
  unfold nearest. intros Hh%subseteq_take%sort_hits_elem.
  change (@map (string * StoredRecord) Hit) with (@fmap list _ (string * StoredRecord) Hit) in Hh.
  apply list_elem_of_fmap in Hh as ([id rec] & -> & Hin).
  apply list_elem_of_filter in Hin as [Hm Hin].
  apply elem_of_map_to_list in Hin. by cbn in *.
Qed.

Lemma format_result_hit (col : gmap string StoredRecord) (q : Embedding)
    (k : Z) (filter_dict : option (list (string * MetaValue)))
    (i : nat) (h : Hit) :
  nearest col q k filter_dict !! i = Some h ->
  format_result (collection_query col [q] k filter_dict) i
  = (msgs ← json_loads (full_chunk_data (metadata (hit_record h)));
     Ok {| res_text := document (hit_record h);
           res_conversation_id := md_conversation_id (metadata (hit_record h));
           res_conversation_title := md_conversation_title (metadata (hit_record h));
           res_created_at := md_created_at (metadata (hit_record h));
           res_distance := Some (hit_distance h);
           res_messages := msgs |}).
Proof.
  intros Hh. unfold format_result, collection_query.
  cbn [qr_documents qr_metadatas qr_distances map].
  repeat (first [rewrite index_head | rewrite (index_map _ _ _ _ Hh)];
          cbn [mbind result_bind Py.bind]).
  done.
Qed.

Lemma format_loop_presents (col : gmap string StoredRecord) (q : Embedding)
    (k : Z) (filter_dict : option (list (string * MetaValue)))
    (m start : nat) (formatted results : list SearchResult) :
  (start + m = length (nearest col q k filter_dict))%nat ->
  format_loop (collection_query col [q] k filter_dict) (seq start m) formatted
  = Ok results ->
  exists new,
    results = formatted ++ new /\
    Forall2 presents (drop start (nearest col q k filter_dict)) new.
Proof.
  revert start formatted. induction m as [|m IH]; intros start formatted Hlen Hrun.
  - injection Hrun as <-. exists []. rewrite app_nil_r. split; [done|].
    rewrite drop_ge by lia. constructor.
  - cbn [seq format_loop] in Hrun.
    destruct (nearest col q k filter_dict !! start) as [h|] eqn:Hh.
    2:{ apply lookup_ge_None in Hh. lia. }
    rewrite (format_result_hit _ _ _ _ _ _ Hh) in Hrun.
    destruct (json_loads (full_chunk_data (metadata (hit_record h))))
      as [msgs|e] eqn:Hloads; [|discriminate Hrun].
    cbn [mbind result_bind Py.bind] in Hrun.
    apply IH in Hrun as (new & -> & Hall); [|lia].
    eexists (_ :: new). rewrite <- app_assoc. split; [done|].
    rewrite (drop_S _ _ _ Hh). constructor; [|done].
    by repeat split.
Qed.

(** The results of [search] present the nearest hits, one by one. *)
Lemma search_presents (s : Store) (query : string) (n_results : Z)
    (filter_dict : option (list (string * MetaValue)))
    (results : list SearchResult) :
  search s query n_results filter_dict = Ok results ->
  Forall2 presents (nearest (collection s) (encode query) n_results filter_dict)
          results.
Proof.
  unfold search. intros Hrun.
  pose proof (format_loop_presents (collection s) (encode query) n_results
                filter_dict
                (length (nearest (collection s) (encode query) n_results filter_dict))
                0 [] results eq_refl) as Hloop.
  cbn [collection_query qr_documents map] in Hrun.
  destruct (nearest (collection s) (encode query) n_results filter_dict)
    as [|h hits] eqn:Hn.
  - cbn in Hrun. injection Hrun as <-. constructor.
  - cbn [map length] in Hrun. rewrite length_map in Hrun.
    destruct (Hloop Hrun) as (new & -> & Hall). by rewrite drop_0 in Hall.
Qed.

End SearchProps.

Section SearchEmpty.
Context {EM : EmbeddingModel} {MT : Metric Embedding} {JC : JsonCodec}.

Lemma nearest_nothing (col : gmap string StoredRecord) (q : Embedding) (k : Z)
    (filter_dict : option (list (string * MetaValue))) :
  (forall id rec, col !! id = Some rec ->
                  where_matches filter_dict (metadata rec) = false) ->
  nearest col q k filter_dict = [].
Proof.
  intros Hnone. unfold nearest.
  destruct (filter _ (map_to_list col)) as [|[id rec] kept] eqn:Hf.
  - cbn. by rewrite take_nil.
  - assert ((id, rec) ∈ filter
              (fun kv : string * StoredRecord =>
                 where_matches filter_dict (metadata (snd kv)) = true)
              (map_to_list col)) as Hin by (rewrite Hf; left).
    apply list_elem_of_filter in Hin as [Hm Hin].
    apply elem_of_map_to_list in Hin. cbn in Hm.
    rewrite (Hnone id rec Hin) in Hm. discriminate Hm.
Qed.

Lemma search_of_no_hit (s : Store) (query : string) (n_results : Z)
    (filter_dict : option (list (string * MetaValue))) :
  nearest (collection s) (encode query) n_results filter_dict = [] ->
  search s query n_results filter_dict = Ok [].
Proof.
  intros Hn. unfold search.
  cbn [collection_query qr_documents map]. by rewrite Hn.
Qed.

End SearchEmpty.

(** C5: [search] with a non-negative [limit] returns at most [limit]
    results, in ascending order of distance (best first), and the
    relevance shown for a result is [1 - distance]. *)
Theorem search_limit_order_relevance
    {EM : EmbeddingModel} {MT : Metric Embedding} {JC : JsonCodec}
    (s : Store) (query : string) (limit : Z)
    (filter_dict : option (list (string * MetaValue)))
    (results : list SearchResult) :
  (0 <= limit)%Z ->
  search s query limit filter_dict = Ok results ->
  (Z.of_nat (length results) <= limit)%Z /\
  best_first results /\
  (forall r, In r results ->
             exists d, res_distance r = Some d /\ relevance r = Some (1 - d)%Q).
Proof.
  intros Hlimit Hrun. apply search_presents in Hrun as Hall.
  pose proof (Forall2_length _ _ _ Hall) as Hlen.
  pose proof (nearest_length (collection s) (encode query) limit filter_dict).
  split; [lia|]. split.
  - intros i j ri rj Hij Hi Hj.
    destruct (Forall2_lookup_r _ _ _ _ _ Hall Hi) as (hi & Hhi & Hpi).
    destruct (Forall2_lookup_r _ _ _ _ _ Hall Hj) as (hj & Hhj & Hpj).
    exists (hit_distance hi), (hit_distance hj).
    split; [apply Hpi|]. split; [apply Hpj|].
    exact (StronglySorted_lookup_le closer _ i j hi hj (fun a => Qle_refl _)
             (nearest_sorted _ _ _ _) Hij Hhi Hhj).
  - intros r Hr. apply list_elem_of_In, list_elem_of_lookup in Hr as [i Hi].
    destruct (Forall2_lookup_r _ _ _ _ _ Hall Hi) as (h & _ & Hp).
    exists (hit_distance h). destruct Hp as (_ & _ & _ & _ & Hd & _).
    split; [done|]. unfold relevance. by rewrite Hd.
Qed.

Lemma search_limit_order_relevance_witness :
  exists results,
    search (EM := length_embedding) (MT := abs_metric) (JC := text_codec)
      sample_store "User: m0" 3 None = Ok results /\
    (Z.of_nat (length results) <= 3)%Z /\
    best_first results.
Proof.
  destruct (search (EM := length_embedding) (MT := abs_metric) (JC := text_codec)
              sample_store "User: m0" 3 None) as [results|e] eqn:Hrun;
    [|vm_compute in Hrun; discriminate Hrun].
  destruct (search_limit_order_relevance (EM := length_embedding)
              (MT := abs_metric) (JC := text_codec)
              sample_store "User: m0" 3 None results ltac:(lia) Hrun)
    as (Hlen & Hbest & _).
  exists results. repeat split; [exact Hlen | exact Hbest].
Defined.

(** C6: a search in an empty collection, or one whose filter no record
    passes, returns the empty list and raises nothing. *)
Theorem search_without_match_is_empty
    {EM : EmbeddingModel} {MT : Metric Embedding} {JC : JsonCodec}
    (s : Store) (query : string) (n_results : Z)
    (filter_dict : option (list (string * MetaValue))) :
  (collection s = ∅ -> search s query n_results filter_dict = Ok []) /\
  ((forall id rec, collection s !! id = Some rec ->
                   where_matches filter_dict (metadata rec) = false) ->
   search s query n_results filter_dict = Ok []).
Proof.
  split.
  - intros Hempty. apply search_of_no_hit, nearest_nothing.
    intros id rec. by rewrite Hempty, lookup_empty.
  - intros Hnone. by apply search_of_no_hit, nearest_nothing.
Qed.

Lemma search_without_match_is_empty_witness :
  search (EM := length_embedding) (MT := abs_metric) (JC := text_codec)
    fresh_store "anything" 5 None = Ok [] /\
  search (EM := length_embedding) (MT := abs_metric) (JC := text_codec)
    sample_store "User: m0" 5 (Some [("conversation_id", MStr "other")]) = Ok [].
Proof.
  split.
  - apply (proj1 (search_without_match_is_empty (EM := length_embedding)
             (MT := abs_metric) (JC := text_codec) fresh_store "anything" 5 None)).
    vm_compute. reflexivity.
  - apply (proj2 (search_without_match_is_empty (EM := length_embedding)
             (MT := abs_metric) (JC := text_codec) sample_store "User: m0" 5
             (Some [("conversation_id", MStr "other")]))).
    apply (bool_decide_unpack
             (map_Forall (fun (_ : string) (rec : StoredRecord (EM := length_embedding)) =>
                            where_matches (Some [("conversation_id", MStr "other")])
                                          (metadata rec) = false)
                         (collection sample_store))).
    vm_compute. exact I.
Defined.

Section RoundTrip.
Context {EM : EmbeddingModel} {MT : Metric Embedding} {JC : JsonCodec}.

(** With distinct chunk ids, an import leaves the record of every chunk
    under the chunk's id. *)
Lemma add_conversations_stores (s s1 : Store) (conversations : list Conversation)
    (batch_size n1 : Z) (chunk : Chunk) :
  (0 < batch_size)%Z ->
  add_conversations s conversations batch_size = Ok (s1, n1) ->
  NoDup (map chunk_id (conversation_chunks conversations)) ->
  In chunk (conversation_chunks conversations) ->
  collection s1 !! chunk_id chunk = Some (snd (chunk_record chunk)).
Proof.
  intros Hb Hrun Hnd Hin.
  rewrite add_conversations_writes in Hrun by done. injection Hrun as <- _.
  rewrite collection_set_collection.
  apply upsert_all_lookup.
  - by rewrite map_map.
  - by apply (in_map chunk_record) in Hin.
Qed.

End RoundTrip.

(** C9: the message slice of a chunk makes the round trip through the
    store.  After an import of conversations with distinct ids, the
    record under the chunk's id holds the serialized slice in its metadata, and whenever a
    search returns that record, the result's [messages] is the chunk's
    original slice (and its [text] the chunk's text), provided
    [json.loads] reads back what [json.dumps] wrote for the slice. *)
Theorem stored_slice_round_trip
    {EM : EmbeddingModel} {MT : Metric Embedding} {JC : JsonCodec}
    (s s1 : Store) (conversations : list Conversation) (batch_size n1 : Z)
    (chunk : Chunk) :
  (0 < batch_size)%Z ->
  add_conversations s conversations batch_size = Ok (s1, n1) ->
  NoDup (map conv_id conversations) ->
  In chunk (conversation_chunks conversations) ->
  json_loads (json_dumps (messages chunk)) = Ok (messages chunk) ->
  (exists rec,
     collection s1 !! chunk_id chunk = Some rec /\
     document rec = text chunk /\
     full_chunk_data (metadata rec) = json_dumps (messages chunk)) /\
  (forall query n_results filter_dict results (i : nat) (h : Hit),
     search s1 query n_results filter_dict = Ok results ->
     nearest (collection s1) (encode query) n_results filter_dict !! i = Some h ->
     hit_id h = chunk_id chunk ->
     exists r,
       results !! i = Some r /\
       res_messages r = messages chunk /\
       res_text r = text chunk /\
       res_conversation_id r = conversation_id chunk).
Proof.
  intros Hb Hrun Hnd Hin Hcodec.
  pose proof (add_conversations_stores s s1 conversations batch_size n1 chunk
                Hb Hrun (chunk_ids_unique _ Hnd) Hin) as Hstored.
  split; [by eexists|].
  intros query n_results filter_dict results i h Hsearch Hh Hid.
  apply search_presents in Hsearch as Hall.
  destruct (Forall2_lookup_l _ _ _ _ _ Hall Hh) as (r & Hr & Hp).
  exists r. split; [done|].
  apply list_elem_of_lookup_2, nearest_stored in Hh as (Hrec & _).
  rewrite Hid, Hstored in Hrec. injection Hrec as Hrec.
  destruct Hp as (Htext & Hcid & _ & _ & _ & Hloads).
  rewrite <- Hrec in Htext, Hcid, Hloads. cbn in Htext, Hcid, Hloads.
  rewrite Hcodec in Hloads. injection Hloads as Hmsgs.
  by repeat split.
Qed.

Lemma stored_slice_round_trip_witness :
  exists r,
    search (EM := length_embedding) (MT := abs_metric) (JC := text_codec)
      small_store "User: m2" 1 None = Ok [r] /\
    res_messages r = Py.slice (sample_messages 5) 2 5.
Proof.
  pose (chunk := nth_chunk (sample_conversation 5) 3 1 1).
  destruct (stored_slice_round_trip (EM := length_embedding) (MT := abs_metric)
              (JC := text_codec) fresh_store small_store
              [sample_conversation 5] 100 2 chunk) as [_ Hsearch].
  - lia.
  - vm_compute. reflexivity.
  - apply (bool_decide_unpack _). vm_compute. exact I.
  - right. left. reflexivity.
  - vm_compute. reflexivity.
  - destruct (nearest (EM := length_embedding) (MT := abs_metric)
                (collection small_store)
                (@encode length_embedding "User: m2") 1 None !! 0%nat)
      as [h|] eqn:Hh; [|vm_compute in Hh; discriminate Hh].
    destruct (search (EM := length_embedding) (MT := abs_metric) (JC := text_codec)
                small_store "User: m2" 1 None) as [results|e] eqn:Hrun;
      [|vm_compute in Hrun; discriminate Hrun].
    destruct (Hsearch "User: m2"%string 1%Z None results 0%nat h Hrun Hh)
      as (r & Hr & Hmsgs & _).
    { vm_compute in Hh. injection Hh as <-. vm_compute. reflexivity. }
    exists r. split; [|exact Hmsgs].
    vm_compute in Hrun. injection Hrun as <-.
    cbn in Hr. injection Hr as <-. vm_compute. reflexivity.
Defined.

(** * Further properties of the chunker *)

Lemma slice_bound_le (n i : Z) : (0 <= n)%Z -> (0 <= Py.slice_bound n i <= n)%Z.
Proof. intros Hn. unfold Py.slice_bound. destruct (Z.ltb_spec i 0); lia. Qed.

(** A non-empty slice from a non-negative start is the range from the
    start over its own length. *)
Lemma slice_nonempty_shape {A} (l : list A) (i hi : Z) :
  (0 <= i)%Z -> Py.slice l i hi <> [] ->
  (i < i + Z.of_nat (length (Py.slice l i hi)) <= Z.of_nat (length l))%Z /\
  Py.slice l i (i + Z.of_nat (length (Py.slice l i hi))) = Py.slice l i hi.
Proof.
  intros Hi Hne.
  set (n := Z.of_nat (length l)).
  set (b := Py.slice_bound n hi).
  pose proof (slice_bound_le n hi ltac:(lia)) as Hb. fold b in Hb.
  assert (Py.slice l i hi
          = take (Z.to_nat (b - Z.min i n)) (drop (Z.to_nat (Z.min i n)) l)) as Hs.
  { unfold Py.slice. fold n. fold b. unfold Py.slice_bound.
    destruct (Z.ltb_spec i 0); [lia|done]. }
  rewrite Hs in Hne |- *.
  assert (0 < length (take (Z.to_nat (b - Z.min i n))
                           (drop (Z.to_nat (Z.min i n)) l)))%nat as Hpos.
  { destruct (take _ _); [done | cbn; lia]. }
  rewrite length_take, length_drop in Hpos |- *.
  split; [lia|].
  unfold Py.slice. fold n. unfold Py.slice_bound.
  destruct (Z.ltb_spec i 0); [lia|].
  match goal with |- context [(?x <? 0)%Z] => destruct (Z.ltb_spec x 0); [lia|] end.
  f_equal. lia.
Qed.

Lemma chunk_loop_windows_any (conversation : Conversation) (chunk_size : Z)
    (indices : list Z) (chunks : list Chunk) :
  Forall (fun i => (0 <= i)%Z) indices ->
  Forall (is_window conversation) chunks ->
  Forall (is_window conversation) (chunk_loop conversation chunk_size indices chunks).
Proof.
  intros Hidx. revert chunks.
  induction Hidx as [|i rest Hi Hrest IH]; intros chunks Hall; [done|].
  cbn [chunk_loop].
  pose proof (slice_nonempty_shape (conv_messages conversation) i
                (i + chunk_size) Hi) as Hshape.
  destruct (Py.slice (conv_messages conversation) i (i + chunk_size))
    as [|m ms] eqn:Hs; [by apply IH|].
  destruct (Hshape ltac:(done)) as [Hrange Hsame].
  assert (Forall (is_window conversation)
            (chunks ++ [make_chunk conversation chunks i (m :: ms)])) as Hall'.
  { apply Forall_app. split; [done|]. constructor; [|constructor].
    unfold is_window, make_chunk.
    cbn [message_start_idx message_end_idx messages text].
    repeat split; try lia. by rewrite Hsame. }
  destruct (Z.leb_spec (Z.of_nat (length (conv_messages conversation)))
              (i + chunk_size)); [done | by apply IH].
Qed.

Lemma range_nonneg (stop step : Z) (indices : list Z) :
  (0 <= stop)%Z ->
  Py.range 0 stop step = Ok indices -> Forall (fun i => (0 <= i)%Z) indices.
Proof.
  intros Hstop. unfold Py.range, Py.range_len.
  destruct (Z.eqb_spec step 0); [discriminate|].
  destruct (Z.ltb_spec 0 step).
  - intros [= <-]. apply Forall_forall. intros i Hin.
    apply list_elem_of_In, in_map_iff in Hin as (k & <- & _). nia.
  - destruct (Z.ltb_spec stop 0); [lia|]. intros [= <-]. constructor.
Qed.

Lemma chunk_loop_indexed (conversation : Conversation) (chunk_size : Z)
    (indices : list Z) (chunks : list Chunk) :
  (forall (j : nat) c, chunks !! j = Some c ->
     chunk_index c = Z.of_nat j /\
     conversation_id c = conv_id conversation /\
     conversation_title c = conv_title conversation /\
     created_at c = conv_created_at conversation) ->
  forall (j : nat) c,
    chunk_loop conversation chunk_size indices chunks !! j = Some c ->
    chunk_index c = Z.of_nat j /\
    conversation_id c = conv_id conversation /\
    conversation_title c = conv_title conversation /\
    created_at c = conv_created_at conversation.
Proof.
  revert chunks. induction indices as [|i rest IH]; intros chunks Hall; [done|].
  cbn [chunk_loop].
  destruct (Py.slice (conv_messages conversation) i (i + chunk_size))
    as [|m ms]; [by apply IH|].
  assert (forall (j : nat) c,
            (chunks ++ [make_chunk conversation chunks i (m :: ms)]) !! j = Some c ->
            chunk_index c = Z.of_nat j /\
            conversation_id c = conv_id conversation /\
            conversation_title c = conv_title conversation /\
            created_at c = conv_created_at conversation) as Hall'.
  { intros j c Hj. apply lookup_snoc_Some in Hj as [[_ Hj]|[-> <-]]; [by apply Hall|].
    done. }
  destruct (Z.leb_spec (Z.of_nat (length (conv_messages conversation)))
              (i + chunk_size)); [done | by apply IH].
Qed.

(** X1: for any parameters, every chunk that [chunk_conversation] returns
    is a non-empty window of the conversation: its range satisfies
    [0 <= message_start_idx < message_end_idx <= n], its [messages] are
    exactly the slice of that range, as many as the range is long, and
    its [text] renders them. *)
Theorem chunks_are_windows (conversation : Conversation) (chunk_size overlap : Z)
    (chunks : list Chunk) (c : Chunk) :
  chunk_conversation conversation chunk_size overlap = Ok chunks ->
  In c chunks ->
  is_window conversation c.
Proof.
  unfold chunk_conversation. intros Hrun Hin.
  destruct (Py.range 0 _ (chunk_size - overlap)) as [indices|e] eqn:Hr;
    [|discriminate Hrun].
  cbn in Hrun. injection Hrun as <-.
  apply range_nonneg in Hr; [|lia].
  pose proof (chunk_loop_windows_any conversation chunk_size indices [] Hr
                (Forall_nil_2 _)) as Hall.
  rewrite Forall_forall in Hall. by apply Hall, list_elem_of_In.
Qed.

Lemma chunks_are_windows_witness :
  is_window (sample_conversation 5) (nth_chunk (sample_conversation 5) 3 1 1).
Proof.
  apply (chunks_are_windows (sample_conversation 5) 3 1
           [nth_chunk (sample_conversation 5) 3 1 0;
            nth_chunk (sample_conversation 5) 3 1 1]).
  - vm_compute. reflexivity.
  - right. left. reflexivity.
Defined.

(** X2: for any parameters, the chunk at position [j] of the result has
    [chunk_index = j], and carries the id, title and creation time of the
    conversation. *)
Theorem chunk_index_is_position (conversation : Conversation)
    (chunk_size overlap : Z) (chunks : list Chunk) (j : nat) (c : Chunk) :
  chunk_conversation conversation chunk_size overlap = Ok chunks ->
  chunks !! j = Some c ->
  chunk_index c = Z.of_nat j /\
  conversation_id c = conv_id conversation /\
  conversation_title c = conv_title conversation /\
  created_at c = conv_created_at conversation.
Proof.
  unfold chunk_conversation. intros Hrun Hj.
  destruct (Py.range 0 _ (chunk_size - overlap)) as [indices|e];
    [|discriminate Hrun].
  cbn in Hrun. injection Hrun as <-.
  by eapply chunk_loop_indexed; [|exact Hj].
Qed.

Lemma chunk_index_is_position_witness :
  chunk_index (nth_chunk (sample_conversation 5) 3 1 1) = 1%Z /\
  conversation_id (nth_chunk (sample_conversation 5) 3 1 1) = "c1".
Proof.
  destruct (chunk_index_is_position (sample_conversation 5) 3 1
              [nth_chunk (sample_conversation 5) 3 1 0;
               nth_chunk (sample_conversation 5) 3 1 1]
              1 (nth_chunk (sample_conversation 5) 3 1 1))
    as (Hi & Hc & _).
  - vm_compute. reflexivity.
  - reflexivity.
  - split; [exact Hi | exact Hc].
Defined.

(** X3: with [0 <= overlap < chunk_size] no message is left out: every
    message index below [n] lies in the range of some returned chunk. *)
Theorem chunks_cover_messages (conversation : Conversation)
    (chunk_size overlap : Z) (chunks : list Chunk) (k : Z) :
  (0 <= overlap < chunk_size)%Z ->
  chunk_conversation conversation chunk_size overlap = Ok chunks ->
  (0 <= k < Z.of_nat (length (conv_messages conversation)))%Z ->
  exists c, In c chunks /\ (message_start_idx c <= k < message_end_idx c)%Z.
Proof.
  intros [Hov Hlt] Hrun Hk.
  rewrite chunk_conversation_windows in Hrun by lia. injection Hrun as <-.
  set (n := Z.of_nat (length (conv_messages conversation))) in *.
  set (count := chunk_count n chunk_size overlap).
  set (s := (chunk_size - overlap)%Z).
  pose proof (count_pos conversation chunk_size overlap ltac:(lia)) as Hcount.
  pose proof (last_window_reaches_end conversation chunk_size overlap Hlt
                ltac:(lia)) as Hlast.
  fold n count in Hcount, Hlast. fold s in Hlast.
  pose proof (Z.div_mod k s ltac:(lia)) as Hdm.
  pose proof (Z.mod_pos_bound k s ltac:(lia)) as Hmod.
  assert (0 <= k / s)%Z as Hq by (apply Z.div_pos; lia).
  set (j := Z.to_nat (Z.min (k / s) (Z.of_nat count - 1))).
  exists (nth_chunk conversation chunk_size overlap j). split.
  - apply in_map, in_seq. lia.
  - unfold nth_chunk. cbn [message_start_idx message_end_idx]. fold n s.
    assert (Z.of_nat j = Z.min (k / s) (Z.of_nat count - 1)) as -> by lia.
    destruct (Z.min_spec (k / s) (Z.of_nat count - 1)) as [[Hle ->]|[Hle ->]]; nia.
Qed.

Lemma chunks_cover_messages_witness :
  exists c,
    In c [nth_chunk (sample_conversation 5) 3 1 0;
          nth_chunk (sample_conversation 5) 3 1 1] /\
    (message_start_idx c <= 4 < message_end_idx c)%Z.
Proof.
  apply (chunks_cover_messages (sample_conversation 5) 3 1).
  - lia.
  - vm_compute. reflexivity.
  - vm_compute. split; [discriminate | reflexivity].
Defined.

(** X4: with [0 <= overlap < chunk_size], a chunk that is followed by
    another one is full, the next chunk starts [overlap] messages before
    its end, and the last [overlap] messages of the one are the first
    [overlap] messages of the other. *)
Theorem consecutive_chunks_overlap (conversation : Conversation)
    (chunk_size overlap : Z) (chunks : list Chunk) (j : nat) (c c' : Chunk) :
  (0 <= overlap < chunk_size)%Z ->
  chunk_conversation conversation chunk_size overlap = Ok chunks ->
  chunks !! j = Some c -> chunks !! S j = Some c' ->
  Z.of_nat (length (messages c)) = chunk_size /\
  message_start_idx c' = (message_end_idx c - overlap)%Z /\
  drop (Z.to_nat (chunk_size - overlap)) (messages c)
  = take (Z.to_nat overlap) (messages c').
Proof.
  intros [Hov Hlt] Hrun Hj Hj'.
  rewrite chunk_conversation_windows in Hrun by lia. injection Hrun as <-.
  change (@map nat Chunk) with (@fmap list _ nat Chunk) in Hj, Hj'.
  rewrite list_lookup_fmap in Hj, Hj'.
  destruct (seq 0 _ !! j) as [k|] eqn:Hk; [|done].
  destruct (seq 0 _ !! S j) as [k'|] eqn:Hk'; [|done].
  apply lookup_seq in Hk as [-> _]. apply lookup_seq in Hk' as [-> Hcount].
  injection Hj as <-. injection Hj' as <-.
  cbn [Nat.add] in *.
  pose proof (earlier_window_short conversation chunk_size overlap Hov Hlt j Hcount)
    as Hshort.
  unfold nth_chunk. cbn [messages message_start_idx message_end_idx].
  set (msgs := conv_messages conversation) in *.
  set (s := (chunk_size - overlap)%Z) in *.
  assert (0 <= Z.of_nat j * s)%Z as Ha by (subst s; nia).
  split; [|split].
  - rewrite slice_length by lia. lia.
  - lia.
  - rewrite (slice_take_drop msgs (Z.of_nat j * s)) by lia.
    unfold Py.slice, Py.slice_bound.
    destruct (Z.ltb_spec (Z.of_nat (S j) * s) 0); [lia|].
    destruct (Z.ltb_spec (Z.of_nat (S j) * s + chunk_size) 0); [lia|].
    rewrite take_take, skipn_firstn_comm, drop_drop.
    f_equal; [lia|]. f_equal. lia.
Qed.

Lemma consecutive_chunks_overlap_witness :
  message_start_idx (nth_chunk (sample_conversation 5) 3 1 1) = 2%Z /\
  drop 2 (messages (nth_chunk (sample_conversation 5) 3 1 0))
  = take 1 (messages (nth_chunk (sample_conversation 5) 3 1 1)).
Proof.
  destruct (consecutive_chunks_overlap (sample_conversation 5) 3 1
              [nth_chunk (sample_conversation 5) 3 1 0;
               nth_chunk (sample_conversation 5) 3 1 1] 0
              (nth_chunk (sample_conversation 5) 3 1 0)
              (nth_chunk (sample_conversation 5) 3 1 1))
    as (_ & Hstart & Hshared).
  - lia.
  - vm_compute. reflexivity.
  - reflexivity.
  - reflexivity.
  - split; [exact Hstart | exact Hshared].
Defined.

(** X5: with [overlap = 0] the chunks partition the conversation: their
    message lists, one after the other, are the messages of the
    conversation. *)
Theorem chunks_partition_without_overlap (conversation : Conversation)
    (chunk_size : Z) (chunks : list Chunk) :
  (0 < chunk_size)%Z ->
  chunk_conversation conversation chunk_size 0 = Ok chunks ->
  concat (map messages chunks) = conv_messages conversation.
Proof.
  intros Hcs Hrun.
  rewrite chunk_conversation_windows in Hrun by lia. injection Hrun as <-.
  rewrite map_map. unfold nth_chunk. cbn [messages].
  set (msgs := conv_messages conversation).
  set (count := chunk_count (Z.of_nat (length msgs)) chunk_size 0).
  rewrite (map_ext _ (fun j : nat =>
             Py.slice msgs (0 + Z.of_nat j * chunk_size)
               (Z.min (0 + Z.of_nat j * chunk_size + chunk_size)
                      (Z.of_nat (length msgs))))).
  2:{ intros j.
      assert (0 <= Z.of_nat j * chunk_size)%Z by (apply Z.mul_nonneg_nonneg; lia).
      rewrite slice_clamp_hi by lia. rewrite Z.sub_0_r. by f_equal. }
  rewrite batches_upto by done. cbn [Z.of_nat Z.mul]. apply slice_all.
  destruct (decide (length msgs = 0%nat)) as [Hz|Hnz]; [nia|].
  assert (0 < Z.of_nat (length (conv_messages conversation)))%Z as Hn
    by (fold msgs; lia).
  pose proof (last_window_reaches_end conversation chunk_size 0 Hcs Hn) as Hlast.
  fold msgs count in Hlast. lia.
Qed.

Lemma chunks_partition_without_overlap_witness :
  exists chunks,
    chunk_conversation (sample_conversation 5) 2 0 = Ok chunks /\
    length chunks = 3%nat /\
    concat (map messages chunks) = sample_messages 5.
Proof.
  destruct (chunk_conversation (sample_conversation 5) 2 0) as [chunks|e] eqn:Hrun;
    [|vm_compute in Hrun; discriminate Hrun].
  pose proof (chunks_partition_without_overlap (sample_conversation 5) 2 chunks
                ltac:(lia) Hrun) as Hall.
  exists chunks. split; [reflexivity|]. split; [|exact Hall].
  vm_compute in Hrun. injection Hrun as <-. reflexivity.
Defined.

Lemma chunk_negative_stride_empty_witness :
  chunk_conversation (sample_conversation 5) 1 3 = Ok [].
Proof. apply chunk_negative_stride_empty. lia. Defined.

(** * Further properties of add_conversations *)

Lemma conversation_chunks_app (c1 c2 : list Conversation) :
  conversation_chunks (c1 ++ c2) = conversation_chunks c1 ++ conversation_chunks c2.
Proof. unfold conversation_chunks. by rewrite map_app, concat_app. Qed.

Lemma conversation_chunks_count (conversations : list Conversation) :
  length (conversation_chunks conversations)
  = sum_list (map (fun c => chunk_count (Z.of_nat (length (conv_messages c)))
                              default_chunk_size default_overlap)
                  conversations).
Proof.
  induction conversations as [|c rest IH]; [done|].
  change (c :: rest) with ([c] ++ rest) at 1.
  rewrite conversation_chunks_app, length_app, IH. cbn [map sum_list]. f_equal.
  unfold conversation_chunks. cbn [map concat].
  by rewrite app_nil_r, length_map, length_seq.
Qed.

Section ImportMore.
Context {EM : EmbeddingModel} {MT : Metric Embedding} {JC : JsonCodec}.

Lemma upsert_all_size_bounds (col : gmap string StoredRecord)
    (recs : list (string * StoredRecord)) :
  (size col <= size (upsert_all col recs) <= size col + length recs)%nat.
Proof.
  revert col. induction recs as [|[k v] recs IH]; intros col; [cbn; lia|].
  cbn [upsert_all foldl fst snd length]. fold (upsert_all (<[k:=v]> col) recs).
  specialize (IH (<[k:=v]> col)). rewrite map_size_insert in IH.
  revert IH. destruct (col !! k); unfold id; lia.
Qed.

Lemma upsert_all_size_fresh (col : gmap string StoredRecord)
    (recs : list (string * StoredRecord)) :
  NoDup (map fst recs) ->
  (forall k, In k (map fst recs) -> col !! k = None) ->
  size (upsert_all col recs) = (size col + length recs)%nat.
Proof.
  revert col. induction recs as [|[k v] recs IH]; intros col Hnd Hfresh; [cbn; lia|].
  cbn [map fst] in Hnd. apply NoDup_cons in Hnd as [Hk Hnd].
  cbn [upsert_all foldl fst snd length]. fold (upsert_all (<[k:=v]> col) recs).
  rewrite IH; [|done|].
  - rewrite map_size_insert, (Hfresh k) by (by left). cbn [length]. lia.
  - intros k' Hk'. rewrite lookup_insert_ne; [apply Hfresh; by right|].
    intros ->. by apply Hk, list_elem_of_In.
Qed.

Lemma upsert_all_other (col : gmap string StoredRecord)
    (recs : list (string * StoredRecord)) (k : string) :
  ~ In k (map fst recs) -> upsert_all col recs !! k = col !! k.
Proof.
  revert col. induction recs as [|[k' v] recs IH]; intros col Hk; [done|].
  cbn [upsert_all foldl fst snd]. fold (upsert_all (<[k':=v]> col) recs).
  cbn [map fst] in Hk. rewrite IH by (intros ?; apply Hk; by right).
  apply lookup_insert_ne. intros ->. apply Hk. by left.
Qed.

End ImportMore.

(** X7: [add_conversations] with [batch_size = 0] raises ([ValueError]
    from the batch loop's [range]) for every store and every conversation
    list, also the empty one; nothing is stored. *)
Theorem add_zero_batch_raises
    {EM : EmbeddingModel} {MT : Metric Embedding} {JC : JsonCodec}
    (s : Store) (conversations : list Conversation) :
  add_conversations s conversations 0 = Raise ValueError.
Proof. unfold add_conversations. by rewrite chunk_all_ok. Qed.

(** X8: with a negative [batch_size] the batch loop does not run:
    [add_conversations] returns the number of chunks it made as if they
    were added, while the collection holds what it held before. *)
Theorem add_negative_batch_stores_nothing
    {EM : EmbeddingModel} {MT : Metric Embedding} {JC : JsonCodec}
    (s : Store) (conversations : list Conversation) (batch_size : Z) :
  (batch_size < 0)%Z ->
  exists s1,
    add_conversations s conversations batch_size
    = Ok (s1, Z.of_nat (length (conversation_chunks conversations))) /\
    collection s1 = collection s /\
    total_chunks (get_stats s1) = total_chunks (get_stats s).
Proof.
  intros Hb. unfold add_conversations. rewrite chunk_all_ok.
  cbn [mbind result_bind Py.bind app]. unfold Py.range, Py.range_len.
  destruct (Z.eqb_spec batch_size 0); [lia|].
  destruct (Z.ltb_spec 0 batch_size); [lia|].
  destruct (Z.ltb_spec (Z.of_nat (length (map text (conversation_chunks conversations)))) 0);
    [lia|].
  cbn [Z.to_nat seq map Py.bind foldl].
  eexists. split; [done|].
  unfold get_stats. cbn [total_chunks]. by rewrite collection_set_collection.
Qed.

Lemma add_negative_batch_stores_nothing_witness :
  exists s1,
    add_conversations (EM := length_embedding) (JC := text_codec)
      fresh_store [sample_conversation 5] (-1) = Ok (s1, 2%Z) /\
    total_chunks (get_stats s1) = 0%Z.
Proof.
  destruct (add_negative_batch_stores_nothing (EM := length_embedding)
              (MT := abs_metric) (JC := text_codec)
              fresh_store [sample_conversation 5] (-1) ltac:(lia))
    as (s1 & Hrun & _ & Hcount).
  exists s1. split; [exact Hrun | exact Hcount].
Defined.



(** X10: with a positive batch size the returned count is the sum of the
    chunk counts of the conversations; the collection never shrinks and
    grows by at most that count, and by exactly that count when the
    conversation ids are distinct and none of the chunk ids is there
    yet. *)
Theorem add_count_and_growth
    {EM : EmbeddingModel} {MT : Metric Embedding} {JC : JsonCodec}
    (s s1 : Store) (conversations : list Conversation) (batch_size n1 : Z) :
  (0 < batch_size)%Z ->
  add_conversations s conversations batch_size = Ok (s1, n1) ->
  n1 = Z.of_nat
         (sum_list (map (fun c => chunk_count (Z.of_nat (length (conv_messages c)))
                                    default_chunk_size default_overlap)
                        conversations)) /\
  (total_chunks (get_stats s) <= total_chunks (get_stats s1)
   <= total_chunks (get_stats s) + n1)%Z /\
  (NoDup (map conv_id conversations) ->
   (forall chunk, In chunk (conversation_chunks conversations) ->
                  collection s !! chunk_id chunk = None) ->
   total_chunks (get_stats s1) = (total_chunks (get_stats s) + n1)%Z).
Proof.
  intros Hb Hrun. rewrite add_conversations_writes in Hrun by done.
  injection Hrun as <- <-.
  unfold get_stats, collection_count. cbn [total_chunks].
  rewrite collection_set_collection, <- conversation_chunks_count.
  pose proof (upsert_all_size_bounds (collection s)
                (map chunk_record (conversation_chunks conversations))) as Hsize.
  rewrite length_map in Hsize.
  split; [done|]. split; [lia|].
  intros Hnd Hfresh. rewrite upsert_all_size_fresh, length_map; [lia| |].
  - rewrite map_map. by apply chunk_ids_unique.
  - intros k Hk. rewrite map_map in Hk.
    apply in_map_iff in Hk as (chunk & <- & Hin). by apply Hfresh.
Qed.

Lemma add_count_and_growth_witness :
  exists s1,
    add_conversations (EM := length_embedding) (JC := text_codec)
      fresh_store [sample_conversation 21] 100 = Ok (s1, 10%Z) /\
    total_chunks (get_stats s1) = 10%Z.
Proof.
  destruct (add_conversations (EM := length_embedding) (JC := text_codec)
              fresh_store [sample_conversation 21] 100) as [[s1 n1]|e] eqn:Hrun;
    [|vm_compute in Hrun; discriminate Hrun].
  destruct (add_count_and_growth (EM := length_embedding) (MT := abs_metric)
              (JC := text_codec) fresh_store s1 [sample_conversation 21] 100 n1
              ltac:(lia) Hrun) as (Hn & _ & Hexact).
  assert (n1 = 10%Z) as -> by (rewrite Hn; reflexivity).
  exists s1. split; [reflexivity|].
  rewrite Hexact; [reflexivity | |].
  - apply (bool_decide_unpack _). vm_compute. exact I.
  - intros chunk _. reflexivity.
Defined.

(** X11: an import touches only the ids of its own chunks: a record under
    any other id is after the call what it was before. *)
Theorem add_leaves_other_ids
    {EM : EmbeddingModel} {MT : Metric Embedding} {JC : JsonCodec}
    (s s1 : Store) (conversations : list Conversation) (batch_size n1 : Z)
    (id : string) :
  (0 < batch_size)%Z ->
  add_conversations s conversations batch_size = Ok (s1, n1) ->
  ~ In id (map chunk_id (conversation_chunks conversations)) ->
  collection s1 !! id = collection s !! id.
Proof.
  intros Hb Hrun Hid. rewrite add_conversations_writes in Hrun by done.
  injection Hrun as <- _. rewrite collection_set_collection.
  apply upsert_all_other. by rewrite map_map.
Qed.

Lemma add_leaves_other_ids_witness :
  exists s1 n1,
    add_conversations (EM := length_embedding) (JC := text_codec)
      small_store [mkConversation "c2" "" "Other" (sample_messages 2)] 100
    = Ok (s1, n1) /\
    collection s1 !! "c1_chunk_0" = collection small_store !! "c1_chunk_0".
Proof.
  destruct (add_conversations (EM := length_embedding) (JC := text_codec)
              small_store [mkConversation "c2" "" "Other" (sample_messages 2)] 100)
    as [[s1 n1]|e] eqn:Hrun; [|vm_compute in Hrun; discriminate Hrun].
  exists s1, n1. split; [reflexivity|].
  apply (add_leaves_other_ids (EM := length_embedding) (MT := abs_metric)
           (JC := text_codec) small_store s1
           [mkConversation "c2" "" "Other" (sample_messages 2)] 100 n1).
  - lia.
  - exact Hrun.
  - vm_compute. intros [Heq|[]]. discriminate Heq.
Defined.



(** X13: conversations without messages add nothing: for any non-zero
    batch size the call returns 0 and the collection is unchanged. *)
Theorem add_empty_conversations
    {EM : EmbeddingModel} {MT : Metric Embedding} {JC : JsonCodec}
    (s : Store) (conversations : list Conversation) (batch_size : Z) :
  batch_size <> 0%Z ->
  Forall (fun c => conv_messages c = []) conversations ->
  exists s1,
    add_conversations s conversations batch_size = Ok (s1, 0%Z) /\
    collection s1 = collection s.
Proof.
  intros Hb Hall.
  assert (conversation_chunks conversations = []) as Hnone.
  { induction Hall as [|c rest Hc Hrest IH]; [done|].
    change (c :: rest) with ([c] ++ rest).
    rewrite conversation_chunks_app, IH, app_nil_r.
    unfold conversation_chunks. cbn [map concat]. by rewrite Hc. }
  unfold add_conversations. rewrite chunk_all_ok, Hnone.
  cbn [mbind result_bind Py.bind app map length Z.of_nat].
  rewrite range_empty by lia.
  cbn [Py.bind foldl]. eexists. split; [done|].
  apply collection_set_collection.
Qed.

Lemma add_empty_conversations_witness :
  exists s1,
    add_conversations (EM := length_embedding) (JC := text_codec)
      small_store [mkConversation "c3" "" "Empty" []] 100 = Ok (s1, 0%Z) /\
    collection s1 = collection small_store.
Proof.
  apply (add_empty_conversations (EM := length_embedding) (MT := abs_metric)
           (JC := text_codec)).
  - lia.
  - repeat constructor.
Defined.

(** * Further properties of search *)

Section SearchMore.
Context {EM : EmbeddingModel} {MT : Metric Embedding} {JC : JsonCodec}.

Lemma format_loop_present_all (col : gmap string StoredRecord) (q : Embedding)
    (k : Z) (filter_dict : option (list (string * MetaValue)))
    (m start : nat) (formatted : list SearchResult) :
  (start + m = length (nearest col q k filter_dict))%nat ->
  format_loop (collection_query col [q] k filter_dict) (seq start m) formatted
  = present_all (drop start (nearest col q k filter_dict)) formatted.
Proof.
  revert start formatted. induction m as [|m IH]; intros start formatted Hlen.
  - rewrite drop_ge by lia. done.
  - destruct (nearest col q k filter_dict !! start) as [h|] eqn:Hh.
    2:{ apply lookup_ge_None in Hh. lia. }
    cbn [seq format_loop]. rewrite (drop_S _ _ _ Hh). cbn [present_all].
    rewrite (format_result_hit _ _ _ _ _ _ Hh). fold (present_hit h).
    destruct (present_hit h) as [r|e]; [|done].
    cbn [mbind result_bind Py.bind]. apply IH. lia.
Qed.

(** [search] presents the nearest hits in order. *)
Lemma search_present_all (s : Store) (query : string) (n_results : Z)
    (filter_dict : option (list (string * MetaValue))) :
  search s query n_results filter_dict
  = present_all (nearest (collection s) (encode query) n_results filter_dict) [].
Proof.
  unfold search. cbn [collection_query qr_documents map].
  pose proof (format_loop_present_all (collection s) (encode query) n_results
                filter_dict
                (length (nearest (collection s) (encode query) n_results filter_dict))
                0 [] eq_refl) as Hloop.
  destruct (nearest (collection s) (encode query) n_results filter_dict)
    as [|h hits] eqn:Hn; [done|].
  cbn [map length] in Hloop |- *. rewrite length_map. by rewrite Hloop, drop_0.
Qed.



Lemma insert_hit_length (h : Hit) (l : list Hit) :
  length (insert_hit h l) = S (length l).
Proof.
  induction l as [|h' l IH]; [done|]. cbn [insert_hit].
  destruct (Qle_bool (hit_distance h) (hit_distance h')); cbn [length]; lia.
Qed.

Lemma sort_hits_length (l : list Hit) : length (sort_hits l) = length l.
Proof.
  induction l as [|h l IH]; [done|].
  cbn [sort_hits foldr]. fold (sort_hits l). by rewrite insert_hit_length, IH.
Qed.


End SearchMore.

Section SearchFacts.
Context {EM : EmbeddingModel} {MT : Metric Embedding} {JC : JsonCodec}.

Lemma filter_all {A} (P : A -> Prop) `{forall x, Decision (P x)} (l : list A) :
  Forall P l -> filter P l = l.
Proof.
  induction 1 as [|x l Hx Hl IH]; [done|].
  rewrite filter_cons_True by done. by rewrite IH.
Qed.

Lemma nearest_length_unfiltered (col : gmap string StoredRecord) (q : Embedding)
    (k : Z) :
  length (nearest col q k None) = (Z.to_nat k `min` size col)%nat.
Proof.
  unfold nearest. rewrite length_take, sort_hits_length, length_map.
  rewrite filter_all by (apply Forall_forall; done).
  by rewrite length_map_to_list.
Qed.

Lemma present_all_raises (before after : list Hit) (h : Hit)
    (formatted : list SearchResult) (e : exn) :
  Forall (fun h' => exists r, present_hit h' = Ok r) before ->
  present_hit h = Raise e ->
  present_all (before ++ h :: after) formatted = Raise e.
Proof.
  intros Hall Hbad. revert formatted.
  induction Hall as [|h' rest [r Hr] Hrest IH]; intros formatted.
  - cbn [app present_all]. by rewrite Hbad.
  - cbn [app present_all]. rewrite Hr. cbn [mbind result_bind Py.bind]. apply IH.
Qed.





End SearchFacts.

(** X14: without a filter, a search that returns gives exactly
    [min limit total_chunks] results (for [limit >= 0]): all records when
    the limit exceeds the collection, [limit] of them otherwise. *)
Theorem search_result_count
    {EM : EmbeddingModel} {MT : Metric Embedding} {JC : JsonCodec}
    (s : Store) (query : string) (limit : Z) (results : list SearchResult) :
  (0 <= limit)%Z ->
  search s query limit None = Ok results ->
  Z.of_nat (length results) = Z.min limit (total_chunks (get_stats s)).
Proof.
  intros Hlimit Hrun. apply search_presents, Forall2_length in Hrun.
  rewrite <- Hrun, nearest_length_unfiltered.
  unfold get_stats, collection_count. cbn [total_chunks]. lia.
Qed.

Lemma search_result_count_witness :
  exists results,
    search (EM := length_embedding) (MT := abs_metric) (JC := text_codec)
      small_store "User" 5 None = Ok results /\
    length results = 2%nat.
Proof.
  destruct (search (EM := length_embedding) (MT := abs_metric) (JC := text_codec)
              small_store "User" 5 None) as [results|e] eqn:Hrun;
    [|vm_compute in Hrun; discriminate Hrun].
  pose proof (search_result_count (EM := length_embedding) (MT := abs_metric)
                (JC := text_codec) small_store "User" 5 results ltac:(lia) Hrun)
    as Hlen.
  exists results. split; [reflexivity|].
  change (total_chunks (get_stats small_store)) with 2%Z in Hlen. lia.
Defined.

(** X15: every result of [search] shows a record that is in the
    collection and passes the filter: its text is the record's document,
    its conversation fields are the record's metadata, its distance is
    the distance from the query's embedding to the record's vector, and
    its messages are what [json.loads] reads from the record's
    [full_chunk_data]. *)
Theorem search_results_are_stored
    {EM : EmbeddingModel} {MT : Metric Embedding} {JC : JsonCodec}
    (s : Store) (query : string) (n_results : Z)
    (filter_dict : option (list (string * MetaValue)))
    (results : list SearchResult) (r : SearchResult) :
  search s query n_results filter_dict = Ok results ->
  In r results ->
  exists id rec,
    collection s !! id = Some rec /\
    where_matches filter_dict (metadata rec) = true /\
    res_text r = document rec /\
    res_conversation_id r = md_conversation_id (metadata rec) /\
    res_conversation_title r = md_conversation_title (metadata rec) /\
    res_created_at r = md_created_at (metadata rec) /\
    res_distance r = Some (distance (encode query) (vector rec)) /\
    json_loads (full_chunk_data (metadata rec)) = Ok (res_messages r).
Proof.
  intros Hrun Hr. apply search_presents in Hrun.
  apply list_elem_of_In, list_elem_of_lookup in Hr as [i Hi].
  destruct (Forall2_lookup_r _ _ _ _ _ Hrun Hi) as (h & Hh & Hp).
  apply list_elem_of_lookup_2, nearest_stored in Hh as (Hrec & Hmatch & Hdist).
  destruct Hp as (? & ? & ? & ? & Hd & ?).
  exists (hit_id h), (hit_record h). rewrite Hdist in Hd. by repeat split.
Qed.

Lemma search_results_are_stored_witness :
  exists r id rec,
    search (EM := length_embedding) (MT := abs_metric) (JC := text_codec)
      small_store "User: m2" 1 None = Ok [r] /\
    collection small_store !! id = Some rec /\
    res_text r = document rec.
Proof.
  destruct (search (EM := length_embedding) (MT := abs_metric) (JC := text_codec)
              small_store "User: m2" 1 None) as [results|e] eqn:Hrun;
    [|vm_compute in Hrun; discriminate Hrun].
  destruct results as [|r [|r' rest]];
    [vm_compute in Hrun; discriminate Hrun | | vm_compute in Hrun; discriminate Hrun].
  destruct (search_results_are_stored (EM := length_embedding) (MT := abs_metric)
              (JC := text_codec) small_store "User: m2" 1 None [r] r Hrun
              (or_introl eq_refl)) as (id & rec & Hrec & _ & Htext & _).
  exists r, id, rec. repeat split; [exact Hrec | exact Htext].
Defined.

(** X16: [search] decodes the stored slice of every hit and catches
    nothing: when the hits before position [i] decode and the hit at [i]
    does not, the whole search raises the error of that hit. *)
Theorem search_raises_on_undecodable
    {EM : EmbeddingModel} {MT : Metric Embedding} {JC : JsonCodec}
    (s : Store) (query : string) (n_results : Z)
    (filter_dict : option (list (string * MetaValue)))
    (i : nat) (h : Hit) (e : exn) :
  nearest (collection s) (encode query) n_results filter_dict !! i = Some h ->
  (forall (j : nat) h',
     (j < i)%nat ->
     nearest (collection s) (encode query) n_results filter_dict !! j = Some h' ->
     exists msgs, json_loads (full_chunk_data (metadata (hit_record h'))) = Ok msgs) ->
  json_loads (full_chunk_data (metadata (hit_record h))) = Raise e ->
  search s query n_results filter_dict = Raise e.
Proof.
  intros Hh Hbefore Hbad. rewrite search_present_all.
  rewrite <- (take_drop_middle _ _ _ Hh).
  apply present_all_raises.
  - apply Forall_forall. intros h' Hin.
    apply list_elem_of_lookup in Hin as [j Hj].
    pose proof (lookup_lt_Some _ _ _ Hj) as Hlt. rewrite length_take in Hlt.
    rewrite lookup_take_lt in Hj by lia.
    destruct (Hbefore j h' ltac:(lia) Hj) as [msgs Hmsgs].
    unfold present_hit. rewrite Hmsgs. by eexists.
  - unfold present_hit. by rewrite Hbad.
Qed.

Lemma search_raises_on_undecodable_witness :
  search (EM := length_embedding) (MT := abs_metric) (JC := text_codec)
    foreign_store "User: m2" 1 None = Raise JSONDecodeError.
Proof.
  destruct (nearest (EM := length_embedding) (MT := abs_metric)
              (collection foreign_store) (@encode length_embedding "User: m2") 1 None
              !! 0%nat) as [h|] eqn:Hh; [|vm_compute in Hh; discriminate Hh].
  apply (search_raises_on_undecodable (EM := length_embedding) (MT := abs_metric)
           (JC := text_codec) foreign_store "User: m2" 1 None 0 h JSONDecodeError Hh).
  - intros j h' Hj. lia.
  - vm_compute in Hh. injection Hh as <-. vm_compute. reflexivity.
Defined.





(** * Further properties of reset and __init__ *)

(** X19: [reset] deletes and re-creates the store's own collection only:
    every other collection of the client, the path and the collection
    name are as before. *)
Theorem reset_leaves_other_collections
    {EM : EmbeddingModel} {MT : Metric Embedding} {JC : JsonCodec}
    (s s2 : Store) (other : string) :
  reset s = Ok s2 ->
  other <> collection_name s ->
  client s2 !! other = client s !! other /\
  db_path s2 = db_path s /\ collection_name s2 = collection_name s.
Proof.
  unfold reset, delete_collection. intros Hrun Hother.
  destruct (client s !! collection_name s) as [col|] eqn:Hcol; [|discriminate Hrun].
  cbn [mbind result_bind Py.bind] in Hrun. injection Hrun as <-.
  cbn [client db_path collection_name]. split; [|done].
  unfold get_or_create_collection. rewrite lookup_delete_eq.
  rewrite lookup_insert_ne by done. by rewrite lookup_delete_ne.
Qed.

Lemma reset_leaves_other_collections_witness :
  exists s2,
    reset (set_collection (EM := length_embedding)
             (init (EM := length_embedding) (client small_store) "./chroma_db" "notes")
             (collection small_store)) = Ok s2 /\
    client s2 !! "claude_conversations" = client small_store !! "claude_conversations" /\
    client s2 !! "notes" = Some ∅.
Proof.
  destruct (reset (set_collection (EM := length_embedding)
             (init (EM := length_embedding) (client small_store) "./chroma_db" "notes")
             (collection small_store))) as [s2|e] eqn:Hrun;
    [|vm_compute in Hrun; discriminate Hrun].
  destruct (reset_leaves_other_collections (EM := length_embedding)
              (MT := abs_metric) (JC := text_codec) _ s2 "claude_conversations" Hrun)
    as (Hother & _).
  { vm_compute. discriminate. }
  exists s2. split; [reflexivity|]. split.
  - rewrite Hother. vm_compute. reflexivity.
  - vm_compute in Hrun. injection Hrun as <-. vm_compute. reflexivity.
Defined.

(** X20: opening the same path and collection name again after imports
    gives the same store: [__init__] finds the collection and keeps its
    records. *)
Theorem reopen_keeps_store
    {EM : EmbeddingModel} {MT : Metric Embedding} {JC : JsonCodec}
    (persisted : gmap string (gmap string StoredRecord)) (path name : string)
    (calls : list (list Conversation * Z)) (s : Store) :
  add_many (init persisted path name) calls = Ok s ->
  init (client s) path name = s /\
  get_stats (init (client s) path name) = get_stats s.
Proof.
  intros Hrun.
  apply add_many_keeps_handle in Hrun as ([col Hcol] & Hname & Hpath);
    [|apply init_has_collection].
  cbn [collection_name db_path init] in Hname, Hpath.
  assert (init (client s) path name = s) as Heq.
  { unfold init, get_or_create_collection. rewrite <- Hname, Hcol.
    destruct s. cbn in *. by subst. }
  by rewrite Heq.
Qed.

Lemma reopen_keeps_store_witness :
  init (EM := length_embedding) (client small_store)
    "./chroma_db" "claude_conversations" = small_store.
Proof.
  apply (reopen_keeps_store (EM := length_embedding) (MT := abs_metric)
           (JC := text_codec) ∅ "./chroma_db" "claude_conversations"
           [([sample_conversation 5], 100%Z)] small_store).
  vm_compute. reflexivity.
Defined.

(** * Further properties of the normalizer *)

Lemma normalize_messages_each (msgs : list json)
    (normalized out : list NormalizedMessage) :
  normalize_messages msgs normalized = Ok out ->
  exists new,
    out = normalized ++ new /\
    Forall2 (fun msg m => normalize_message msg = Ok m) msgs new.
Proof.
  revert normalized. induction msgs as [|msg rest IH]; intros normalized Hrun.
  - injection Hrun as <-. exists []. by rewrite app_nil_r.
  - cbn in Hrun.
    destruct (normalize_message msg) as [m|e] eqn:Hm; [|discriminate Hrun].
    cbn in Hrun. apply IH in Hrun as (new & -> & Hall).
    exists (m :: new). rewrite <- app_assoc. split; [done|]. by constructor.
Qed.

Lemma normalize_messages_complete (msgs : list json)
    (normalized new : list NormalizedMessage) :
  Forall2 (fun msg m => normalize_message msg = Ok m) msgs new ->
  normalize_messages msgs normalized = Ok (normalized ++ new).
Proof.
  intros Hall. revert normalized.
  induction Hall as [|msg m rest new Hm Hrest IH]; intros normalized.
  - by rewrite app_nil_r.
  - cbn [normalize_messages]. rewrite Hm. cbn [mbind result_bind Py.bind].
    rewrite IH. by rewrite <- app_assoc.
Qed.

Lemma text_parts_omap (blocks parts : list json) :
  text_parts blocks parts = parts ++ omap block_part blocks.
Proof.
  revert parts. induction blocks as [|block rest IH]; intros parts.
  - by rewrite app_nil_r.
  - change (omap block_part (block :: rest))
      with (match block_part block with
            | Some y => y :: omap block_part rest
            | None => omap block_part rest
            end).
    cbn [text_parts].
    destruct block as [| | |t|?|d]; cbn [block_part]; try apply IH.
    + rewrite IH, <- app_assoc. done.
    + destruct (dict_get d "type" JNull) as [| | |t|?|?]; try apply IH.
      destruct (String.eqb t "text"); [|apply IH].
      rewrite IH, <- app_assoc. done.
Qed.

Lemma join_lines_strings (texts : list string) :
  join_lines (map JStr texts) = Ok (Py.join Py.newline texts).
Proof.
  induction texts as [|t texts IH]; [done|].
  destruct texts as [|t' texts]; [done|].
  change (join_lines (map JStr (t :: t' :: texts)))
    with (r ← join_lines (map JStr (t' :: texts)); Ok (t +:+ Py.newline +:+ r)).
  by rewrite IH.
Qed.

Lemma join_lines_ok (parts : list json) (joined : string) :
  join_lines parts = Ok joined ->
  exists texts, parts = map JStr texts /\ joined = Py.join Py.newline texts.
Proof.
  revert joined. induction parts as [|p parts IH]; intros joined Hrun.
  - injection Hrun as <-. by exists [].
  - destruct p as [| | |t|?|?]; try discriminate Hrun.
    destruct parts as [|p' parts].
    + injection Hrun as <-. by exists [t].
    + change (join_lines (JStr t :: p' :: parts))
        with (r ← join_lines (p' :: parts); Ok (t +:+ Py.newline +:+ r)) in Hrun.
      destruct (join_lines (p' :: parts)) as [r|e] eqn:Hr; [|discriminate Hrun].
      cbn [mbind result_bind Py.bind] in Hrun. injection Hrun as <-.
      destruct (IH r eq_refl) as (texts & Htexts & ->).
      exists (t :: texts). cbn [map]. rewrite Htexts. split; [done|].
      destruct texts; [discriminate Htexts | done].
Qed.

Lemma join_lines_bad (parts : list json) :
  Exists (fun p => is_string p = false) parts ->
  join_lines parts = Raise TypeError.
Proof.
  induction parts as [|p parts IH]; intros Hbad; [by apply Exists_nil in Hbad|].
  apply Exists_cons in Hbad as [Hp|Hrest].
  - destruct p; try discriminate Hp; by destruct parts.
  - specialize (IH Hrest).
    destruct p as [| | |t|?|?]; try (by destruct parts).
    destruct parts as [|p' parts]; [by apply Exists_nil in Hrest|].
    change (join_lines (JStr t :: p' :: parts))
      with (r ← join_lines (p' :: parts); Ok (t +:+ Py.newline +:+ r)).
    by rewrite IH.
Qed.

Lemma normalize_message_dict (d : list (string * json)) :
  normalize_message (JObj d)
  = (c ← match raw_content d with
         | JArr blocks =>
             joined ← join_lines (text_parts blocks []); Ok (JStr joined)
         | _ => Ok (raw_content d)
         end;
     Ok {| n_role := raw_role d;
           n_content := c;
           n_timestamp := dict_get d "timestamp" (dict_get d "created_at" (JStr "")) |}).
Proof. reflexivity. Qed.

Lemma normalize_message_object (msg : json) (m : NormalizedMessage) :
  normalize_message msg = Ok m -> exists d, msg = JObj d.
Proof. destruct msg; try discriminate. by eexists. Qed.

Lemma normalize_message_flat (msg : json) (m : NormalizedMessage) :
  normalize_message msg = Ok m -> is_array (n_content m) = false.
Proof.
  intros Hm. destruct (normalize_message_object _ _ Hm) as [d ->].
  rewrite normalize_message_dict in Hm.
  destruct (raw_content d) as [| | |t|blocks|d'] eqn:Hc;
    cbn [mbind result_bind Py.bind] in Hm; try (by injection Hm as <-).
  destruct (join_lines (text_parts blocks [])) as [joined|e]; [|discriminate Hm].
  by injection Hm as <-.
Qed.

Lemma dict_get_present (d : list (string * json)) (key : string) (a b : json) :
  dict_has d key = true -> dict_get d key a = dict_get d key b.
Proof.
  induction d as [|[k v] d IH]; [discriminate|].
  unfold dict_has. cbn [existsb fst dict_get].
  destruct (String.eqb k key); [done|]. exact IH.
Qed.

Section NormalizerMore.
Context {CK : Clock}.

Lemma normalize_conversation_dict (idx : nat) (d : list (string * json)) :
  normalize_conversation idx (JObj d)
  = (msgs ← iterate (raw_messages_of d);
     normalized ← normalize_messages msgs [];
     Ok {| n_id := dict_get d "id"
                     (JStr ("conv_" +:+ pretty idx +:+ "_" +:+ now_timestamp idx));
           n_created_at := dict_get d "created_at"
                             (dict_get d "timestamp" (JStr (now_isoformat idx)));
           n_title := dict_get d "title"
                        (dict_get d "name"
                           (JStr ("Conversation " +:+ pretty (idx + 1)%nat)));
           n_messages := normalized |}).
Proof. reflexivity. Qed.

Lemma normalize_conversation_object (idx : nat) (convo : json)
    (c : NormalizedConversation) :
  normalize_conversation idx convo = Ok c -> exists d, convo = JObj d.
Proof. destruct convo; try discriminate. by eexists. Qed.

Lemma normalize_loop_each (idx : nat) (raw : list json)
    (normalized out : list NormalizedConversation) :
  normalize_loop idx raw normalized = Ok out ->
  exists new,
    out = normalized ++ new /\ length new = length raw /\
    forall (i : nat) convo c,
      raw !! i = Some convo -> new !! i = Some c ->
      normalize_conversation (idx + i) convo = Ok c.
Proof.
  revert idx normalized. induction raw as [|convo rest IH]; intros idx normalized Hrun.
  - injection Hrun as <-. exists []. by rewrite app_nil_r.
  - cbn in Hrun.
    destruct (normalize_conversation idx convo) as [c|e] eqn:Hc; [|discriminate Hrun].
    cbn in Hrun. apply IH in Hrun as (new & -> & Hlen & Heach).
    exists (c :: new). rewrite <- app_assoc. split; [done|].
    split; [cbn; lia|].
    intros [|i] convo' c' Hi Hi'; cbn in Hi, Hi'.
    + injection Hi as <-. injection Hi' as <-. by rewrite Nat.add_0_r.
    + replace (idx + S i)%nat with (S idx + i)%nat by lia. by apply Heach.
Qed.

Lemma normalize_loop_complete (idx : nat) (raw : list json)
    (normalized new : list NormalizedConversation) :
  length new = length raw ->
  (forall (i : nat) convo c,
     raw !! i = Some convo -> new !! i = Some c ->
     normalize_conversation (idx + i) convo = Ok c) ->
  normalize_loop idx raw normalized = Ok (normalized ++ new).
Proof.
  revert idx normalized new.
  induction raw as [|convo rest IH]; intros idx normalized [|c new] Hlen Heach;
    try discriminate Hlen.
  - by rewrite app_nil_r.
  - cbn [normalize_loop].
    pose proof (Heach 0%nat convo c eq_refl eq_refl) as Hc.
    rewrite Nat.add_0_r in Hc. rewrite Hc. cbn [mbind result_bind Py.bind].
    rewrite (IH (S idx) _ new); [by rewrite <- app_assoc | by injection Hlen |].
    intros i convo' c' Hi Hi'.
    replace (S idx + i)%nat with (idx + S i)%nat by lia. by apply Heach.
Qed.

End NormalizerMore.

Lemma normalized_messages_flat (clock : Clock) (raw_conversations : json)
    (convs : list NormalizedConversation) :
  _normalize_conversations raw_conversations = Ok convs ->
  Forall (fun c => Forall (fun m => is_array (n_content m) = false) (n_messages c))
         convs.
Proof.
  unfold _normalize_conversations. intros Hrun.
  destruct (iterate raw_conversations) as [items|e]; [|discriminate Hrun].
  cbn [mbind result_bind Py.bind] in Hrun.
  apply normalize_loop_each in Hrun as (new & -> & Hlen & Heach).
  apply Forall_forall. intros c Hc.
  apply list_elem_of_lookup in Hc as [i Hi]. cbn [app] in Hi.
  destruct (items !! i) as [convo|] eqn:Hitem.
  2:{ apply lookup_ge_None in Hitem. apply lookup_lt_Some in Hi. lia. }
  pose proof (Heach i convo c Hitem Hi) as Hconv.
  destruct (normalize_conversation_object _ _ _ Hconv) as [d ->].
  rewrite normalize_conversation_dict in Hconv.
  destruct (iterate (raw_messages_of d)) as [msgs|e]; [|discriminate Hconv].
  cbn [mbind result_bind Py.bind] in Hconv.
  destruct (normalize_messages msgs []) as [normalized|e] eqn:Hn; [|discriminate Hconv].
  cbn [mbind result_bind Py.bind] in Hconv. injection Hconv as <-.
  apply normalize_messages_each in Hn as (out & -> & Hall).
  cbn [n_messages app]. apply Forall_forall. intros m Hm.
  apply list_elem_of_lookup in Hm as [j Hj].
  destruct (Forall2_lookup_r _ _ _ _ _ Hall Hj) as (msg & _ & Hmsg).
  by eapply normalize_message_flat.
Qed.


(** X21: the normalizer returns one conversation per item of the input,
    in order, and the conversation at position [i] takes each field from
    the first key that is there: [id], else the fallback
    [conv_<i>_<timestamp>]; [created_at], else [timestamp], else the
    current time; [title], else [name], else [Conversation <i+1>]; and it
    has one message per item under [messages], else [chat_messages]. *)
Theorem normalized_fields (clock : Clock) (raw_conversations : json)
    (convs : list NormalizedConversation) (i : nat) (c : NormalizedConversation) :
  _normalize_conversations raw_conversations = Ok convs ->
  convs !! i = Some c ->
  exists items d msgs,
    iterate raw_conversations = Ok items /\
    length convs = length items /\
    items !! i = Some (JObj d) /\
    n_id c = dict_get d "id"
               (JStr ("conv_" +:+ pretty i +:+ "_" +:+ now_timestamp i)) /\
    n_created_at c = dict_get d "created_at"
                       (dict_get d "timestamp" (JStr (now_isoformat i))) /\
    n_title c = dict_get d "title"
                  (dict_get d "name" (JStr ("Conversation " +:+ pretty (i + 1)%nat))) /\
    iterate (raw_messages_of d) = Ok msgs /\
    length (n_messages c) = length msgs.
Proof.
  unfold _normalize_conversations. intros Hrun Hi.
  destruct (iterate raw_conversations) as [items|e]; [|discriminate Hrun].
  cbn [mbind result_bind Py.bind] in Hrun.
  apply normalize_loop_each in Hrun as (new & -> & Hlen & Heach).
  cbn [app] in Hi |- *.
  destruct (items !! i) as [convo|] eqn:Hitem.
  2:{ apply lookup_ge_None in Hitem. apply lookup_lt_Some in Hi. lia. }
  pose proof (Heach i convo c Hitem Hi) as Hc. cbn [Nat.add] in Hc.
  destruct (normalize_conversation_object _ _ _ Hc) as [d ->].
  rewrite normalize_conversation_dict in Hc.
  destruct (iterate (raw_messages_of d)) as [msgs|e] eqn:Hmsgs; [|discriminate Hc].
  cbn [mbind result_bind Py.bind] in Hc.
  destruct (normalize_messages msgs []) as [normalized|e] eqn:Hn; [|discriminate Hc].
  cbn [mbind result_bind Py.bind] in Hc. injection Hc as <-.
  apply normalize_messages_each in Hn as (out & -> & Hall).
  exists items, d, msgs. cbn [n_id n_created_at n_title n_messages app].
  repeat split; try done. symmetry. by eapply Forall2_length.
Qed.

Lemma normalized_fields_witness :
  exists items d msgs,
    iterate (JArr [chat_a; chat_a]) = Ok items /\
    items !! 1%nat = Some (JObj d) /\
    dict_get d "title" (dict_get d "name" (JStr "Conversation 2")) = JStr "Chat A" /\
    iterate (raw_messages_of d) = Ok msgs /\
    length msgs = 1%nat.
Proof.
  destruct (_normalize_conversations (CK := fixed_clock) (JArr [chat_a; chat_a]))
    as [convs|e] eqn:Hrun; [|vm_compute in Hrun; discriminate Hrun].
  destruct (convs !! 1%nat) as [c|] eqn:Hc;
    [|vm_compute in Hrun; injection Hrun as <-; discriminate Hc].
  destruct (normalized_fields fixed_clock (JArr [chat_a; chat_a]) convs 1 c Hrun Hc)
    as (items & d & msgs & Hit & _ & Hitem & _ & _ & Htitle & Hmsgs & Hlen).
  exists items, d, msgs. repeat split; try done.
  - change (JStr "Conversation 2")
      with (JStr ("Conversation " +:+ pretty (1 + 1)%nat)).
    rewrite <- Htitle. vm_compute in Hrun. injection Hrun as <-.
    injection Hc as <-. reflexivity.
  - rewrite <- Hlen. vm_compute in Hrun. injection Hrun as <-.
    injection Hc as <-. reflexivity.
Defined.

(** X22: after normalization no message content is a list: a list of
    content blocks has been flattened to one string, and any other
    content is passed through. *)
Theorem normalized_content_is_flat (clock : Clock) (raw_conversations : json)
    (convs : list NormalizedConversation) (c : NormalizedConversation)
    (m : NormalizedMessage) :
  _normalize_conversations raw_conversations = Ok convs ->
  In c convs -> In m (n_messages c) ->
  is_array (n_content m) = false.
Proof.
  intros Hrun Hc Hm. apply normalized_messages_flat in Hrun.
  rewrite Forall_forall in Hrun. apply list_elem_of_In, Hrun in Hc.
  rewrite Forall_forall in Hc. by apply Hc, list_elem_of_In.
Qed.

Lemma normalized_content_is_flat_witness :
  exists c m,
    _normalize_conversations (CK := fixed_clock)
      (JArr [JObj [("messages", JArr [JObj block_message])]]) = Ok [c] /\
    n_messages c = [m] /\
    is_array (n_content m) = false.
Proof.
  destruct (_normalize_conversations (CK := fixed_clock)
              (JArr [JObj [("messages", JArr [JObj block_message])]]))
    as [convs|e] eqn:Hrun; [|vm_compute in Hrun; discriminate Hrun].
  pose proof Hrun as Hval. vm_compute in Hval. injection Hval as <-.
  eexists _, _. split; [reflexivity|]. split; [reflexivity|].
  eapply (normalized_content_is_flat fixed_clock _ _ _ _ Hrun);
    [by left | by left].
Defined.

(** X23: a list content is flattened to the texts of its text-bearing
    blocks, in order, joined by newlines: blocks of type [text] give
    their [text], bare strings give themselves, and every other block is
    dropped. *)
Theorem content_blocks_flattened (d : list (string * json)) (blocks : list json)
    (m : NormalizedMessage) :
  raw_content d = JArr blocks ->
  normalize_message (JObj d) = Ok m ->
  exists texts,
    omap block_part blocks = map JStr texts /\
    n_content m = JStr (Py.join Py.newline texts).
Proof.
  intros Hc Hm. rewrite normalize_message_dict, Hc in Hm.
  rewrite text_parts_omap in Hm. cbn [app] in Hm.
  destruct (join_lines (omap block_part blocks)) as [joined|e] eqn:Hj;
    [|discriminate Hm].
  cbn [mbind result_bind Py.bind] in Hm. injection Hm as <-.
  apply join_lines_ok in Hj as (texts & Htexts & ->). by exists texts.
Qed.

Lemma content_blocks_flattened_witness :
  exists m,
    normalize_message (JObj block_message) = Ok m /\
    n_content m = JStr ("first" +:+ Py.newline +:+ "second").
Proof.
  destruct (normalize_message (JObj block_message)) as [m|e] eqn:Hm;
    [|vm_compute in Hm; discriminate Hm].
  destruct (content_blocks_flattened block_message _ m eq_refl Hm)
    as (texts & Htexts & Hcontent).
  exists m. split; [reflexivity|].
  destruct texts as [|t1 [|t2 [|t3 texts]]]; try discriminate Htexts.
  injection Htexts as <- <-. exact Hcontent.
Defined.

(** X24: a text-bearing block whose text is no string makes the
    normalization of the message raise [TypeError] (from the join); the
    error is not caught in the normalizer. *)
Theorem non_string_text_raises (d : list (string * json)) (blocks : list json) :
  raw_content d = JArr blocks ->
  Exists (fun p => is_string p = false) (omap block_part blocks) ->
  normalize_message (JObj d) = Raise TypeError.
Proof.
  intros Hc Hbad. rewrite normalize_message_dict, Hc, text_parts_omap.
  cbn [app]. by rewrite join_lines_bad.
Qed.

Lemma non_string_text_raises_witness :
  normalize_message (JObj null_text_message) = Raise TypeError.
Proof.
  apply (non_string_text_raises null_text_message
           [JObj [("type", JStr "text"); ("text", JNull)]] eq_refl).
  left. reflexivity.
Defined.

(** X25: a conversation that has an [id] keeps it whatever the time of
    the import; one without gets an id made of its index and the current
    time, so two imports of the same input at different times give it
    different ids.  The messages do not depend on the time. *)
Theorem fallback_id_follows_clock (clock1 clock2 : Clock) (idx : nat)
    (d : list (string * json)) (c1 c2 : NormalizedConversation) :
  normalize_conversation (CK := clock1) idx (JObj d) = Ok c1 ->
  normalize_conversation (CK := clock2) idx (JObj d) = Ok c2 ->
  (dict_has d "id" = true -> n_id c1 = n_id c2) /\
  (dict_has d "id" = false ->
   now_timestamp (Clock := clock1) idx <> now_timestamp (Clock := clock2) idx ->
   n_id c1 <> n_id c2) /\
  n_messages c1 = n_messages c2.
Proof.
  rewrite !normalize_conversation_dict. intros H1 H2.
  destruct (iterate (raw_messages_of d)) as [msgs|e]; [|discriminate H1].
  cbn [mbind result_bind Py.bind] in H1, H2.
  destruct (normalize_messages msgs []) as [normalized|e]; [|discriminate H1].
  cbn [mbind result_bind Py.bind] in H1, H2.
  injection H1 as <-. injection H2 as <-. cbn [n_id n_messages].
  split; [by apply dict_get_present|]. split; [|done].
  intros Hno Hts. rewrite !dict_get_absent by done.
  intros [= Heq]. apply Hts.
  by do 3 apply (inj (String.append _)) in Heq.
Qed.

Lemma fallback_id_follows_clock_witness :
  exists c1 c2,
    normalize_conversation (CK := fixed_clock) 0 chat_a = Ok c1 /\
    normalize_conversation (CK := later_clock) 0 chat_a = Ok c2 /\
    n_id c1 <> n_id c2 /\ n_messages c1 = n_messages c2.
Proof.
  destruct (normalize_conversation (CK := fixed_clock) 0 chat_a) as [c1|e] eqn:H1;
    [|vm_compute in H1; discriminate H1].
  destruct (normalize_conversation (CK := later_clock) 0 chat_a) as [c2|e] eqn:H2;
    [|vm_compute in H2; discriminate H2].
  destruct (fallback_id_follows_clock fixed_clock later_clock 0 _ c1 c2 H1 H2)
    as (_ & Hdiff & Hsame).
  exists c1, c2. repeat split; [|exact Hsame].
  apply Hdiff; [reflexivity|]. vm_compute. discriminate.
Defined.

(** X26: inside one file nothing is skipped: when an item of the
    conversation list is no object, or a conversation has an item that is
    no object among its messages, the normalizer raises and returns
    nothing, also for the well-formed conversations beside it. *)
Theorem malformed_item_fails_whole_file (clock : Clock) (raw_conversations : json)
    (items : list json) (x : json) :
  iterate raw_conversations = Ok items ->
  In x items ->
  is_object x = false \/
  (exists d msgs y,
     x = JObj d /\ iterate (raw_messages_of d) = Ok msgs /\
     In y msgs /\ is_object y = false) ->
  exists e, _normalize_conversations raw_conversations = Raise e.
Proof.
  intros Hit Hx Hbad.
  destruct (_normalize_conversations raw_conversations) as [convs|e] eqn:Hrun;
    [exfalso|by exists e].
  unfold _normalize_conversations in Hrun. rewrite Hit in Hrun.
  cbn [mbind result_bind Py.bind] in Hrun.
  apply normalize_loop_each in Hrun as (new & -> & Hlen & Heach).
  apply list_elem_of_In, list_elem_of_lookup in Hx as [i Hi].
  destruct (new !! i) as [c|] eqn:Hc.
  2:{ apply lookup_ge_None in Hc. apply lookup_lt_Some in Hi. lia. }
  pose proof (Heach i x c Hi Hc) as Hconv.
  destruct (normalize_conversation_object _ _ _ Hconv) as [d ->].
  destruct Hbad as [Hobj|(d' & msgs & y & [= <-] & Hmsgs & Hy & Hobj)];
    [discriminate Hobj|].
  rewrite normalize_conversation_dict, Hmsgs in Hconv.
  cbn [mbind result_bind Py.bind] in Hconv.
  destruct (normalize_messages msgs []) as [normalized|e] eqn:Hn; [|discriminate Hconv].
  apply normalize_messages_each in Hn as (out & _ & Hall).
  apply list_elem_of_In, list_elem_of_lookup in Hy as [j Hj].
  destruct (Forall2_lookup_l _ _ _ _ _ Hall Hj) as (m & _ & Hm).
  destruct (normalize_message_object _ _ Hm) as [dm ->]. discriminate Hobj.
Qed.

Lemma malformed_item_fails_whole_file_witness :
  exists e,
    _normalize_conversations (CK := fixed_clock) (JArr [chat_a; JStr "oops"; chat_a])
    = Raise e.
Proof.
  apply (malformed_item_fails_whole_file fixed_clock
           (JArr [chat_a; JStr "oops"; chat_a])
           [chat_a; JStr "oops"; chat_a] (JStr "oops") eq_refl).
  - right. left. reflexivity.
  - left. reflexivity.
Defined.

Lemma normalize_message_to_json (m : NormalizedMessage) :
  is_array (n_content m) = false ->
  normalize_message (message_to_json m) = Ok m.
Proof.
  intros Hflat. unfold message_to_json. rewrite normalize_message_dict.
  destruct m as [r c t]. cbn in Hflat |- *.
  destruct c; try discriminate Hflat; reflexivity.
Qed.

Lemma normalize_conversation_to_json (clock : Clock) (idx : nat)
    (c : NormalizedConversation) :
  Forall (fun m => is_array (n_content m) = false) (n_messages c) ->
  normalize_conversation idx (conversation_to_json c) = Ok c.
Proof.
  intros Hflat. unfold conversation_to_json. rewrite normalize_conversation_dict.
  change (raw_messages_of _) with (JArr (map message_to_json (n_messages c))).
  cbn [iterate mbind result_bind Py.bind].
  rewrite (normalize_messages_complete _ [] (n_messages c)).
  - by destruct c.
  - induction Hflat as [|m ms Hm Hms IH]; [constructor|].
    cbn [map]. constructor; [by apply normalize_message_to_json | done].
Qed.

(** X27: the normalizer changes nothing in its own output: conversations
    it returned, written out as dictionaries and normalized again (at any
    later time), come back as they are. *)
Theorem normalize_own_output (clock1 clock2 : Clock) (raw_conversations : json)
    (convs : list NormalizedConversation) :
  _normalize_conversations (CK := clock1) raw_conversations = Ok convs ->
  _normalize_conversations (CK := clock2)
    (JArr (map conversation_to_json convs)) = Ok convs.
Proof.
  intros Hrun. apply normalized_messages_flat in Hrun as Hflat.
  unfold _normalize_conversations. cbn [iterate mbind result_bind Py.bind].
  rewrite (normalize_loop_complete 0 _ [] convs); [done | by rewrite length_map |].
  intros i convo c Hi Hc.
  change (@map NormalizedConversation json) with (@fmap list _ NormalizedConversation json) in Hi.
  rewrite list_lookup_fmap, Hc in Hi. injection Hi as <-.
  apply normalize_conversation_to_json.
  rewrite Forall_forall in Hflat. by eapply Hflat, list_elem_of_lookup_2.
Qed.

Lemma normalize_own_output_witness :
  exists convs,
    _normalize_conversations (CK := fixed_clock)
      (JArr [chat_a; JObj [("messages", JArr [JObj block_message])]]) = Ok convs /\
    _normalize_conversations (CK := later_clock)
      (JArr (map conversation_to_json convs)) = Ok convs.
Proof.
  destruct (_normalize_conversations (CK := fixed_clock)
              (JArr [chat_a; JObj [("messages", JArr [JObj block_message])]]))
    as [convs|e] eqn:Hrun; [|vm_compute in Hrun; discriminate Hrun].
  exists convs. split; [reflexivity|].
  exact (normalize_own_output fixed_clock later_clock _ convs Hrun).
Defined.

(** * cli.py: cmd_reset *)

(** X28: [cmd_reset] never raises.  Without [--yes] and with an answer
    other than [yes] (in any letter case) it leaves every collection as
    it is; with [--yes] or the answer [yes] it leaves the named
    collection empty and every other collection as it is. *)
Theorem cmd_reset_confirmation {EM : EmbeddingModel} (yes : bool)
    (response : string) (persisted : gmap string (gmap string StoredRecord))
    (path name : string) :
  (yes = false -> Py.lower response <> "yes" ->
   cmd_reset yes response persisted path name = Ok persisted) /\
  (yes = true \/ Py.lower response = "yes" ->
   exists after,
     cmd_reset yes response persisted path name = Ok after /\
     after !! name = Some ∅ /\
     forall other, other <> name -> after !! other = persisted !! other).
Proof.
  unfold cmd_reset. split.
  - intros -> Hno. apply String.eqb_neq in Hno. by rewrite Hno.
  - intros Hyes.
    assert (negb yes && negb (String.eqb (Py.lower response) "yes") = false) as ->.
    { destruct Hyes as [->|Hr]; [done|].
      apply String.eqb_eq in Hr. rewrite Hr. by destruct yes. }
    unfold reset, delete_collection, init, get_or_create_collection.
    cbn [client collection_name db_path].
    destruct (persisted !! name) as [col|] eqn:Hcol.
    + rewrite Hcol. cbn [mbind result_bind Py.bind client].
      rewrite lookup_delete_eq. eexists. split; [done|].
      split; [by rewrite lookup_insert_eq|].
      intros other Hother.
      by rewrite lookup_insert_ne, lookup_delete_ne.
    + rewrite lookup_insert_eq. cbn [mbind result_bind Py.bind client].
      rewrite lookup_delete_eq. eexists. split; [done|].
      split; [by rewrite lookup_insert_eq|].
      intros other Hother.
      by rewrite lookup_insert_ne, lookup_delete_ne, lookup_insert_ne.
Qed.

Lemma cmd_reset_confirmation_witness :
  cmd_reset (EM := length_embedding) false "no" (client small_store)
    "./chroma_db" "claude_conversations" = Ok (client small_store) /\
  exists after,
    cmd_reset (EM := length_embedding) false "YES" (client small_store)
      "./chroma_db" "claude_conversations" = Ok after /\
    after !! "claude_conversations" = Some ∅.
Proof.
  split.
  - apply (proj1 (cmd_reset_confirmation (EM := length_embedding) false "no"
                    (client small_store) "./chroma_db" "claude_conversations"));
      [reflexivity | vm_compute; discriminate].
  - destruct (proj2 (cmd_reset_confirmation (EM := length_embedding) false "YES"
                       (client small_store) "./chroma_db" "claude_conversations"))
      as (after & Hrun & Hempty & _).
    + right. vm_compute. reflexivity.
    + exists after. split; [exact Hrun | exact Hempty].
Defined.

(** X29: chunk ids are unique within an import: when the conversations
    have distinct ids, the ids [{conversation_id}_chunk_{chunk_index}] of
    all the chunks made for them are pairwise distinct. *)
Theorem import_chunk_ids_distinct (conversations : list Conversation)
    (chunks : list Chunk) :
  NoDup (map conv_id conversations) ->
  chunk_all conversations [] = Ok chunks ->
  NoDup (map chunk_id chunks).
Proof.
  intros Hnd Hrun. rewrite chunk_all_ok in Hrun. injection Hrun as <-.
  by apply chunk_ids_unique.
Qed.

Lemma import_chunk_ids_distinct_witness :
  exists chunks,
    chunk_all [sample_conversation 5;
               mkConversation "c1_chunk_0" "" "Odd id" (sample_messages 2)] []
    = Ok chunks /\
    NoDup (map chunk_id chunks).
Proof.
  destruct (chunk_all [sample_conversation 5;
                       mkConversation "c1_chunk_0" "" "Odd id" (sample_messages 2)] [])
    as [chunks|e] eqn:Hrun; [|vm_compute in Hrun; discriminate Hrun].
  exists chunks. split; [reflexivity|].
  apply (import_chunk_ids_distinct
           [sample_conversation 5;
            mkConversation "c1_chunk_0" "" "Odd id" (sample_messages 2)] chunks);
    [|exact Hrun].
  apply (bool_decide_unpack _). vm_compute. exact I.
Defined.
